(** * Verification of webhook-logger (src/server.js)

    Shallow embedding of the Express server of [src/server.js]: the
    [POST /webhook], [GET /logs] and [GET /logs/:filename] handlers, the two
    storage media they talk to (the logs directory through fs-extra, the
    [webhook_logs] PostgreSQL table through pg) and the JSON encoding they
    rely on ([JSON.stringify] / [JSON.parse]).

    JavaScript strings are lists of code units; the model restricts code units
    to the 8-bit range ([ascii]).  JSON numbers are modelled as integers. *)

From Stdlib Require Import ZArith Ascii String Lia.
From stdpp Require Import base list gmap sorting strings.

Open Scope list_scope.

(** JavaScript strings (code units below 256). *)
Abbreviation jstr := (list ascii).

Definition lit (s : string) : jstr := list_ascii_of_string s.

Definition ch (n : nat) : ascii := ascii_of_nat n.

(** The double quote character (code 34). *)
Abbreviation dq := (Ascii.Ascii false true false false false true false false).

(** Literal text written with ['] in place of a double quote. *)
Definition sq (s : string) : jstr :=
  map (fun c => if Ascii.eqb c "'"%char then dq else c) (lit s).

(* ------------------------------------------------------------------ *)
(** ** JSON values *)

Inductive json : Type :=
| JNull
| JBool (b : bool)
| JNum (z : Z)
| JStr (s : jstr)
| JArr (l : list json)
| JObj (kvs : list (jstr * json)).

(** Nested induction principle. *)
Section json_ind_nested.
Variable P : json -> Prop.
Hypothesis HNull : P JNull.
Hypothesis HBool : forall b, P (JBool b).
Hypothesis HNum : forall z, P (JNum z).
Hypothesis HStr : forall s, P (JStr s).
Hypothesis HArr : forall l, Forall P l -> P (JArr l).
Hypothesis HObj : forall kvs, Forall (fun kv => P kv.2) kvs -> P (JObj kvs).

Fixpoint json_ind' (v : json) : P v :=
  match v with
  | JNull => HNull
  | JBool b => HBool b
  | JNum z => HNum z
  | JStr s => HStr s
  | JArr l =>
      HArr l ((fix go (l : list json) : Forall P l :=
                 match l with
                 | [] => List.Forall_nil _
                 | x :: t => @List.Forall_cons _ _ x t (json_ind' x) (go t)
                 end) l)
  | JObj kvs =>
      HObj kvs ((fix go (l : list (jstr * json)) : Forall (fun kv => P kv.2) l :=
                   match l with
                   | [] => List.Forall_nil _
                   | x :: t => @List.Forall_cons _ _ x t (json_ind' x.2) (go t)
                   end) kvs)
  end.
End json_ind_nested.

(** A JavaScript object has pairwise distinct keys: JSON values reachable
    from a request are well formed in that sense. *)
Fixpoint nodupb (l : list jstr) : bool :=
  match l with
  | [] => true
  | x :: t => negb (bool_decide (x ∈ t)) && nodupb t
  end.

Fixpoint valid_json (v : json) : bool :=
  match v with
  | JArr l => forallb valid_json l
  | JObj kvs => nodupb (map fst kvs) && forallb (fun kv => valid_json kv.2) kvs
  | _ => true
  end.

(** Structural equality of JSON values, as deep equality of JavaScript
    values: arrays elementwise, objects as sets of members (key order is
    not observable to a deep comparison). *)
Inductive json_equiv : json -> json -> Prop :=
| je_null : json_equiv JNull JNull
| je_bool b : json_equiv (JBool b) (JBool b)
| je_num z : json_equiv (JNum z) (JNum z)
| je_str s : json_equiv (JStr s) (JStr s)
| je_arr l1 l2 : Forall2 json_equiv l1 l2 -> json_equiv (JArr l1) (JArr l2)
| je_obj kvs1 kvs1' kvs2 :
    Permutation kvs1 kvs1' ->
    Forall2 (fun a b => a.1 = b.1 /\ json_equiv a.2 b.2) kvs1' kvs2 ->
    json_equiv (JObj kvs1) (JObj kvs2).

(* ------------------------------------------------------------------ *)
(** ** [JSON.stringify(value, null, gap)] *)

Definition digit_char (n : N) : ascii := ch (48 + N.to_nat n).

Fixpoint n_digits_fuel (fuel : nat) (n : N) : jstr :=
  match fuel with
  | O => []
  | S f =>
      if (n <? 10)%N then [digit_char n]
      else n_digits_fuel f (n / 10)%N ++ [digit_char (n mod 10)%N]
  end.

Definition n_digits (n : N) : jstr := n_digits_fuel (S (N.to_nat (N.size n))) n.

(** Number to string for integral numbers. *)
Definition number_to_string (z : Z) : jstr :=
  match z with
  | Z0 => lit "0"
  | Zpos p => n_digits (Npos p)
  | Zneg p => "-"%char :: n_digits (Npos p)
  end.

Definition hex_char (n : nat) : ascii :=
  if n <? 10 then ch (48 + n) else ch (87 + n).

(** QuoteJSONString, one code unit. *)
Definition quote_char (c : ascii) : jstr :=
  let n := nat_of_ascii c in
  if n =? 34 then ["\"%char; dq]
  else if n =? 92 then ["\"%char; "\"%char]
  else if n =? 8 then ["\"%char; "b"%char]
  else if n =? 9 then ["\"%char; "t"%char]
  else if n =? 10 then ["\"%char; "n"%char]
  else if n =? 12 then ["\"%char; "f"%char]
  else if n =? 13 then ["\"%char; "r"%char]
  else if n <? 32 then
    ["\"%char; "u"%char; "0"%char; "0"%char; hex_char (n / 16); hex_char (n mod 16)]
  else [c].

Definition quote (s : jstr) : jstr :=
  dq :: flat_map quote_char s ++ [dq].

Fixpoint join_with (sep : jstr) (l : list jstr) : jstr :=
  match l with
  | [] => []
  | [x] => x
  | x :: t => x ++ sep ++ join_with sep t
  end.

(** Line break and indentation between members, empty when [gap] is empty. *)
Definition nl (gap ind : jstr) : jstr :=
  match gap with [] => [] | _ => "010"%char :: ind end.

Fixpoint stringify (gap ind : jstr) (v : json) : jstr :=
  match v with
  | JNull => lit "null"
  | JBool true => lit "true"
  | JBool false => lit "false"
  | JNum z => number_to_string z
  | JStr s => quote s
  | JArr [] => lit "[]"
  | JArr l =>
      "["%char :: nl gap (ind ++ gap)
        ++ join_with (","%char :: nl gap (ind ++ gap))
                     (map (stringify gap (ind ++ gap)) l)
        ++ nl gap ind ++ ["]"%char]
  | JObj [] => lit "{}"
  | JObj kvs =>
      "{"%char :: nl gap (ind ++ gap)
        ++ join_with (","%char :: nl gap (ind ++ gap))
                     (map (fun kv => quote kv.1 ++ ":"%char ::
                                     (match gap with [] => [] | _ => [" "%char] end)
                                     ++ stringify gap (ind ++ gap) kv.2) kvs)
        ++ nl gap ind ++ ["}"%char]
  end.

(** [JSON.stringify(v)] and [JSON.stringify(v, null, 2)]. *)
Definition json_stringify (v : json) : jstr := stringify [] [] v.
Definition json_stringify2 (v : json) : jstr := stringify (lit "  ") [] v.

(* ------------------------------------------------------------------ *)
(** ** [JSON.parse(text)] *)

Definition is_ws (c : ascii) : bool :=
  let n := nat_of_ascii c in (n =? 32) || (n =? 9) || (n =? 10) || (n =? 13).

Fixpoint skip_ws (s : jstr) : jstr :=
  match s with
  | c :: r => if is_ws c then skip_ws r else s
  | [] => []
  end.

Definition digit_val (c : ascii) : option N :=
  let n := nat_of_ascii c in
  if (48 <=? n) && (n <=? 57) then Some (N.of_nat (n - 48)) else None.

Definition hex_val (c : ascii) : option nat :=
  let n := nat_of_ascii c in
  if (48 <=? n) && (n <=? 57) then Some (n - 48)
  else if (97 <=? n) && (n <=? 102) then Some (n - 87)
  else if (65 <=? n) && (n <=? 70) then Some (n - 55)
  else None.

Definition cons_fst (c : ascii) (o : option (jstr * jstr)) : option (jstr * jstr) :=
  match o with Some (s, r) => Some (c :: s, r) | None => None end.

(** Single-character escapes of JSON strings. *)
Definition simple_escape (e : ascii) : option ascii :=
  let n := nat_of_ascii e in
  if n =? 34 then Some e
  else if n =? 92 then Some e
  else if n =? 47 then Some e
  else if n =? 98 then Some (ch 8)
  else if n =? 102 then Some (ch 12)
  else if n =? 110 then Some (ch 10)
  else if n =? 114 then Some (ch 13)
  else if n =? 116 then Some (ch 9)
  else None.

(** [\uXXXX] with a code unit outside the modelled 8-bit range is
    reported as [None]. *)
Definition unicode_escape (h1 h2 h3 h4 : ascii) : option ascii :=
  match hex_val h1, hex_val h2, hex_val h3, hex_val h4 with
  | Some a, Some b, Some c, Some d =>
      let n := a * 4096 + b * 256 + c * 16 + d in
      if n <? 256 then Some (ch n) else None
  | _, _, _, _ => None
  end.

(** Body of a string literal, after the opening quote; returns the
    string and the text after the closing quote. *)
Fixpoint parse_string_body (s : jstr) : option (jstr * jstr) :=
  match s with
  | [] => None
  | c :: r =>
      if nat_of_ascii c =? 34 then Some ([], r)
      else if nat_of_ascii c =? 92 then
        match r with
        | e :: r' =>
            match simple_escape e with
            | Some x => cons_fst x (parse_string_body r')
            | None =>
                if nat_of_ascii e =? 117 then
                  match r' with
                  | h1 :: h2 :: h3 :: h4 :: r'' =>
                      match unicode_escape h1 h2 h3 h4 with
                      | Some x => cons_fst x (parse_string_body r'')
                      | None => None
                      end
                  | _ => None
                  end
                else None
            end
        | [] => None
        end
      else if nat_of_ascii c <? 32 then None
      else cons_fst c (parse_string_body r)
  end.

Fixpoint read_digits (acc : N) (s : jstr) : N * jstr :=
  match s with
  | c :: r =>
      match digit_val c with
      | Some d => read_digits (acc * 10 + d)%N r
      | None => (acc, s)
      end
  | [] => (acc, [])
  end.

Definition is_digit (c : ascii) : bool :=
  match digit_val c with Some _ => true | None => false end.

(** Unsigned part of a number: [0] or a non-zero digit followed by digits.
    A fraction or exponent part is outside the modelled (integral) domain. *)
Definition parse_unsigned (s : jstr) : option (N * jstr) :=
  match s with
  | c :: r =>
      if nat_of_ascii c =? 48 then
        match r with
        | c' :: _ => if is_digit c' then None else Some (0%N, r)
        | [] => Some (0%N, r)
        end
      else if is_digit c then Some (read_digits 0 s)
      else None
  | [] => None
  end.

Definition frac_or_exp (s : jstr) : bool :=
  match s with
  | c :: _ => let n := nat_of_ascii c in (n =? 46) || (n =? 101) || (n =? 69)
  | [] => false
  end.

Definition parse_number (s : jstr) : option (json * jstr) :=
  let '(neg, s1) := match s with
                    | c :: r => if nat_of_ascii c =? 45 then (true, r) else (false, s)
                    | [] => (false, s)
                    end in
  match parse_unsigned s1 with
  | Some (n, r) =>
      if frac_or_exp r then None
      else Some (JNum (if neg then (- Z.of_N n)%Z else Z.of_N n), r)
  | None => None
  end.

Fixpoint strip_prefix (p s : jstr) : option jstr :=
  match p, s with
  | [], _ => Some s
  | c :: p', d :: s' => if Ascii.eqb c d then strip_prefix p' s' else None
  | _ :: _, [] => None
  end.

(** Property assignment of [JSON.parse]: an existing key keeps its
    position and takes the new value; a new key is appended. *)
Fixpoint assoc_set (k : jstr) (v : json) (l : list (jstr * json)) : list (jstr * json) :=
  match l with
  | [] => [(k, v)]
  | (k', v') :: t =>
      if bool_decide (k = k') then (k', v) :: t else (k', v') :: assoc_set k v t
  end.

Definition head_is (n : nat) (s : jstr) : option jstr :=
  match s with
  | c :: r => if nat_of_ascii c =? n then Some r else None
  | [] => None
  end.

Fixpoint parse_value (fuel : nat) (s : jstr) : option (json * jstr) :=
  match fuel with
  | O => None
  | S f =>
      let s0 := skip_ws s in
      match s0 with
      | [] => None
      | c :: r =>
          let n := nat_of_ascii c in
          if n =? 110 then
            match strip_prefix (lit "ull") r with Some r' => Some (JNull, r') | None => None end
          else if n =? 116 then
            match strip_prefix (lit "rue") r with Some r' => Some (JBool true, r') | None => None end
          else if n =? 102 then
            match strip_prefix (lit "alse") r with Some r' => Some (JBool false, r') | None => None end
          else if n =? 34 then
            match parse_string_body r with Some (str, r') => Some (JStr str, r') | None => None end
          else if n =? 91 then
            match head_is 93 (skip_ws r) with
            | Some r' => Some (JArr [], r')
            | None =>
                match parse_elems f r [] with
                | Some (l, r') => Some (JArr l, r')
                | None => None
                end
            end
          else if n =? 123 then
            match head_is 125 (skip_ws r) with
            | Some r' => Some (JObj [], r')
            | None =>
                match parse_members f r [] with
                | Some (l, r') => Some (JObj l, r')
                | None => None
                end
            end
          else parse_number s0
      end
  end
with parse_elems (fuel : nat) (s : jstr) (acc : list json) : option (list json * jstr) :=
  match fuel with
  | O => None
  | S f =>
      match parse_value f s with
      | Some (v, r) =>
          let r0 := skip_ws r in
          match head_is 44 r0 with
          | Some r' => parse_elems f r' (acc ++ [v])
          | None =>
              match head_is 93 r0 with
              | Some r' => Some (acc ++ [v], r')
              | None => None
              end
          end
      | None => None
      end
  end
with parse_members (fuel : nat) (s : jstr) (acc : list (jstr * json))
    : option (list (jstr * json) * jstr) :=
  match fuel with
  | O => None
  | S f =>
      match head_is 34 (skip_ws s) with
      | Some r =>
          match parse_string_body r with
          | Some (k, r1) =>
              match head_is 58 (skip_ws r1) with
              | Some r2 =>
                  match parse_value f r2 with
                  | Some (v, r3) =>
                      let acc' := assoc_set k v acc in
                      let r4 := skip_ws r3 in
                      match head_is 44 r4 with
                      | Some r5 => parse_members f r5 acc'
                      | None =>
                          match head_is 125 r4 with
                          | Some r5 => Some (acc', r5)
                          | None => None
                          end
                      end
                  | None => None
                  end
              | None => None
              end
          | None => None
          end
      | None => None
      end
  end.

(** [JSON.parse(text)]: [None] is a thrown [SyntaxError]. *)
Definition json_parse (s : jstr) : option json :=
  match parse_value (S (length s)) s with
  | Some (v, r) => match skip_ws r with [] => Some v | _ => None end
  | None => None
  end.

(** Recognizer of the JSON grammar (ECMA-404), which is the text
    [JSON.parse] accepts: unlike [json_parse] it accepts fraction and
    exponent parts of numbers and every [\uXXXX] escape. *)
Definition is_hex (c : ascii) : bool :=
  match hex_val c with Some _ => true | None => false end.

Fixpoint scan_string_body (s : jstr) : option jstr :=
  match s with
  | [] => None
  | c :: r =>
      if nat_of_ascii c =? 34 then Some r
      else if nat_of_ascii c =? 92 then
        match r with
        | e :: r' =>
            match simple_escape e with
            | Some _ => scan_string_body r'
            | None =>
                if nat_of_ascii e =? 117 then
                  match r' with
                  | h1 :: h2 :: h3 :: h4 :: r'' =>
                      if is_hex h1 && is_hex h2 && is_hex h3 && is_hex h4
                      then scan_string_body r'' else None
                  | _ => None
                  end
                else None
            end
        | [] => None
        end
      else if nat_of_ascii c <? 32 then None
      else scan_string_body r
  end.

Fixpoint scan_digits (s : jstr) : jstr :=
  match s with
  | c :: r => if is_digit c then scan_digits r else s
  | [] => []
  end.

(** One digit or more. *)
Definition scan_digits1 (s : jstr) : option jstr :=
  match s with
  | c :: r => if is_digit c then Some (scan_digits r) else None
  | [] => None
  end.

(** [-? (0 | [1-9][0-9]* ) (. [0-9]+)? ([eE] [+-]? [0-9]+)?] *)
Definition scan_number (s : jstr) : option jstr :=
  let s1 := match s with
            | c :: r => if nat_of_ascii c =? 45 then r else s
            | [] => s
            end in
  let int := match s1 with
             | c :: r => if nat_of_ascii c =? 48 then Some r
                         else if is_digit c then Some (scan_digits r) else None
             | [] => None
             end in
  match int with
  | None => None
  | Some r1 =>
      let frac := match r1 with
                  | c :: r => if nat_of_ascii c =? 46 then scan_digits1 r else Some r1
                  | [] => Some r1
                  end in
      match frac with
      | None => None
      | Some r2 =>
          match r2 with
          | c :: r =>
              if (nat_of_ascii c =? 101) || (nat_of_ascii c =? 69) then
                scan_digits1 (match r with
                              | d :: r' => if (nat_of_ascii d =? 43) || (nat_of_ascii d =? 45)
                                           then r' else r
                              | [] => r
                              end)
              else Some r2
          | [] => Some r2
          end
      end
  end.

Fixpoint scan_value (fuel : nat) (s : jstr) : option jstr :=
  match fuel with
  | O => None
  | S f =>
      let s0 := skip_ws s in
      match s0 with
      | [] => None
      | c :: r =>
          let n := nat_of_ascii c in
          if n =? 110 then strip_prefix (lit "ull") r
          else if n =? 116 then strip_prefix (lit "rue") r
          else if n =? 102 then strip_prefix (lit "alse") r
          else if n =? 34 then scan_string_body r
          else if n =? 91 then
            match head_is 93 (skip_ws r) with
            | Some r' => Some r'
            | None => scan_elems f r
            end
          else if n =? 123 then
            match head_is 125 (skip_ws r) with
            | Some r' => Some r'
            | None => scan_members f r
            end
          else scan_number s0
      end
  end
with scan_elems (fuel : nat) (s : jstr) : option jstr :=
  match fuel with
  | O => None
  | S f =>
      match scan_value f s with
      | Some r =>
          let r0 := skip_ws r in
          match head_is 44 r0 with
          | Some r' => scan_elems f r'
          | None => head_is 93 r0
          end
      | None => None
      end
  end
with scan_members (fuel : nat) (s : jstr) : option jstr :=
  match fuel with
  | O => None
  | S f =>
      match head_is 34 (skip_ws s) with
      | Some r =>
          match scan_string_body r with
          | Some r1 =>
              match head_is 58 (skip_ws r1) with
              | Some r2 =>
                  match scan_value f r2 with
                  | Some r3 =>
                      let r4 := skip_ws r3 in
                      match head_is 44 r4 with
                      | Some r5 => scan_members f r5
                      | None => head_is 125 r4
                      end
                  | None => None
                  end
              | None => None
              end
          | None => None
          end
      | None => None
      end
  end.

(** The text is one JSON value between optional white space. *)
Definition json_text_ok (s : jstr) : bool :=
  match scan_value (S (length s)) s with
  | Some r => match skip_ws r with [] => true | _ => false end
  | None => false
  end.


(* ------------------------------------------------------------------ *)
(** ** [Date.prototype.toISOString] *)

(** A reading of [new Date()] is a time value: milliseconds since the
    epoch, as an integer of magnitude at most [8.64e15]. *)

(** Civil date of a day count since 1970-01-01 (proleptic Gregorian). *)
Definition days_to_civil (days : Z) : Z * Z * Z :=
  let z := (days + 719468)%Z in
  let era := (z / 146097)%Z in
  let doe := (z - era * 146097)%Z in
  let yoe := ((doe - doe / 1460 + doe / 36524 - doe / 146096) / 365)%Z in
  let doy := (doe - (365 * yoe + yoe / 4 - yoe / 100))%Z in
  let mp := ((5 * doy + 2) / 153)%Z in
  let d := (doy - (153 * mp + 2) / 5 + 1)%Z in
  let m := if (mp <? 10)%Z then (mp + 3)%Z else (mp - 9)%Z in
  let y := (yoe + era * 400)%Z in
  ((if (m <=? 2)%Z then (y + 1)%Z else y), m, d).

(** Decimal digits of [n >= 0], left-padded with zeros to width [w]. *)
Definition pad_num (w : nat) (n : Z) : jstr :=
  let s := number_to_string n in repeat "0"%char (w - length s) ++ s.

Definition toISOString (t : Z) : jstr :=
  let days := (t / 86400000)%Z in
  let msd := (t mod 86400000)%Z in
  let '(y, m, d) := days_to_civil days in
  let ys := if ((0 <=? y) && (y <=? 9999))%Z then pad_num 4 y
            else (if (y <? 0)%Z then "-"%char else "+"%char) :: pad_num 6 (Z.abs y) in
  ys ++ "-"%char :: pad_num 2 m ++ "-"%char :: pad_num 2 d
     ++ "T"%char :: pad_num 2 (msd / 3600000) ++ ":"%char :: pad_num 2 ((msd / 60000) mod 60)
     ++ ":"%char :: pad_num 2 ((msd / 1000) mod 60) ++ "."%char :: pad_num 3 (msd mod 1000)
     ++ ["Z"%char].

(** [s.replace(/:/g, '-')] *)
Definition replace_colons (s : jstr) : jstr :=
  map (fun c => if Ascii.eqb c ":"%char then "-"%char else c) s.

(** [`webhook-${timestamp}.json`] with [timestamp] the first clock reading. *)
Definition log_filename (t1 : Z) : jstr :=
  lit "webhook-" ++ replace_colons (toISOString t1) ++ lit ".json".

(* ------------------------------------------------------------------ *)
(** ** [path.join] *)

(** [s.split('/')] *)
Fixpoint split_slash (s : jstr) : list jstr :=
  match s with
  | [] => [[]]
  | c :: r =>
      let segs := split_slash r in
      if Ascii.eqb c "/"%char then [] :: segs
      else match segs with
           | seg :: segs' => (c :: seg) :: segs'
           | [] => [[c]]
           end
  end.

(** A normalized absolute path: its segments, and whether the text ends
    with a separator (the kernel then requires a directory). *)
Record fpath := { fp_segs : list jstr; fp_trail : bool }.

(** One segment of [path.normalize] on an absolute path: empty segments
    and [.] vanish, [..] drops the last segment (and stays at the root). *)
Definition norm_step (acc : list jstr) (seg : jstr) : list jstr :=
  if bool_decide (seg = []) || bool_decide (seg = lit ".") then acc
  else if bool_decide (seg = lit "..") then removelast acc
  else acc ++ [seg].

Definition ends_with_slash (s : jstr) : bool :=
  match last s with Some c => Ascii.eqb c "/"%char | None => false end.

(** [path.join(base, name)] for an absolute, normalized [base] given by its
    segments: the joined text [base/name] normalized. *)
Definition path_join (base : list jstr) (name : jstr) : fpath :=
  {| fp_segs := foldl norm_step base (split_slash name);
     fp_trail := ends_with_slash name |}.

(** The path as text, as it appears in error messages. *)
Definition path_string (p : fpath) : jstr :=
  match fp_segs p with
  | [] => lit "/"
  | segs => flat_map (fun seg => "/"%char :: seg) segs
            ++ (if fp_trail p then lit "/" else [])
  end.

(* ------------------------------------------------------------------ *)
(** ** The file system (fs / fs-extra) *)

(** A file holds text: [writeFileSync] stores the UTF-8 encoding of a
    string and [readFile(p, 'utf8')] decodes it, which is the identity on
    the strings modelled here. *)
Inductive entry := EFile (content : jstr) | EDir.

(** Entries by their absolute path (segments). *)
Abbreviation fsys := (gmap (list jstr) entry).

(** [err.message] of a failed system call:
    [CODE: description, syscall 'path']. *)
Definition sys_error (code desc syscall : jstr) (p : option fpath) : jstr :=
  code ++ lit ": " ++ desc ++ lit ", " ++ syscall
       ++ match p with Some p => lit " '" ++ path_string p ++ lit "'" | None => [] end.

Definition ENOENT (syscall : jstr) (p : fpath) : jstr :=
  sys_error (lit "ENOENT") (lit "no such file or directory") syscall (Some p).
Definition ENOTDIR (syscall : jstr) (p : fpath) : jstr :=
  sys_error (lit "ENOTDIR") (lit "not a directory") syscall (Some p).
Definition EISDIR (syscall : jstr) (p : option fpath) : jstr :=
  sys_error (lit "EISDIR") (lit "illegal operation on a directory") syscall p.

(** What the kernel finds at a path (a trailing separator needs a directory). *)
Definition fs_stat (fs : fsys) (p : fpath) : option entry :=
  match fs !! fp_segs p with
  | Some (EFile c) => if fp_trail p then None else Some (EFile c)
  | e => e
  end.

(** [fs.pathExists(p)] (fs-extra): [fs.access], any error gives [false]. *)
Definition pathExists (fs : fsys) (p : fpath) : bool :=
  match fs_stat fs p with Some _ => true | None => false end.

(** [fs.readFile(p, 'utf8')]: the text or the error message. *)
Definition readFile (fs : fsys) (p : fpath) : jstr + jstr :=
  match fs !! fp_segs p with
  | Some (EFile c) => if fp_trail p then inr (ENOTDIR (lit "open") p) else inl c
  | Some EDir => inr (EISDIR (lit "read") None)
  | None => inr (ENOENT (lit "open") p)
  end.

Definition child_name (d k : list jstr) : option jstr :=
  if bool_decide (length k = S (length d) /\ take (length d) k = d) then last k else None.

(** [fs.readdir(d)]: the names of the entries directly below [d]; the
    order is the file system's and is immaterial to the callers here. *)
Definition readdir (fs : fsys) (p : fpath) : list jstr + jstr :=
  match fs !! fp_segs p with
  | Some EDir => inl (omap (child_name (fp_segs p)) (map fst (map_to_list fs)))
  | Some (EFile _) => inr (ENOTDIR (lit "scandir") p)
  | None => inr (ENOENT (lit "scandir") p)
  end.

(** Failures of the storage medium that the state does not determine:
    the kernel refusing [open] (EACCES, EMFILE, ENOSPC, ...), a failing
    [write] after [written] characters reached the file, or the database
    connection rejecting a query. *)
Inductive save_fault :=
| FOpen (code desc : jstr)
| FWrite (code desc : jstr) (written : nat)
| FDb (msg : jstr).

(** [fs.writeFileSync(p, data)]: the new file system and the error
    message if it threw. *)
Definition writeFileSync (fs : fsys) (p : fpath) (data : jstr) (flt : option save_fault)
  : fsys * option jstr :=
  match fs !! fp_segs p with
  | Some EDir => (fs, Some (EISDIR (lit "open") (Some p)))
  | _ =>
      if fp_trail p then (fs, Some (EISDIR (lit "open") (Some p)))
      else match fs !! removelast (fp_segs p) with
           | None => (fs, Some (ENOENT (lit "open") p))
           | Some (EFile _) => (fs, Some (ENOTDIR (lit "open") p))
           | Some EDir =>
               match flt with
               | Some (FOpen code desc) => (fs, Some (sys_error code desc (lit "open") (Some p)))
               | Some (FWrite code desc n) =>
                   (<[fp_segs p := EFile (take n data)]> fs,
                    Some (sys_error code desc (lit "write") None))
               | _ => (<[fp_segs p := EFile data]> fs, None)
               end
           end
  end.

(** [fs.ensureDirSync(d)] (mkdir -p); [None] when it throws. *)
Fixpoint ensure_dir_aux (fs : fsys) (done_ : list jstr) (todo : list jstr) : option fsys :=
  match todo with
  | [] => Some fs
  | seg :: rest =>
      let d := done_ ++ [seg] in
      match fs !! d with
      | Some EDir => ensure_dir_aux fs d rest
      | Some (EFile _) => None
      | None => ensure_dir_aux (<[d := EDir]> fs) d rest
      end
  end.

Definition ensureDirSync (fs : fsys) (d : list jstr) : option fsys :=
  ensure_dir_aux fs [] d.

(* ------------------------------------------------------------------ *)
(** ** The [webhook_logs] table (PostgreSQL through pg) *)

(** Lexicographic order of code units (the order of [Array.prototype.sort]
    on strings, and of PostgreSQL's byte comparison of UTF-8 text). *)
Fixpoint str_leb (a b : jstr) : bool :=
  match a, b with
  | [], _ => true
  | _ :: _, [] => false
  | c :: a', d :: b' =>
      (nat_of_ascii c <? nat_of_ascii d)
      || ((nat_of_ascii c =? nat_of_ascii d) && str_leb a' b')
  end.

Definition str_le (a b : jstr) : Prop := str_leb a b = true.

#[global] Instance str_le_dec : RelDecision str_le.
Proof. intros a b. unfold str_le. apply _. Defined.

(** Length in bytes of the UTF-8 encoding. *)
Definition utf8_length (s : jstr) : nat :=
  list_sum (map (fun c => if nat_of_ascii c <? 128 then 1 else 2) s).

(** jsonb stores object keys shorter first, then bytewise. *)
Definition jsonb_key_le (a b : jstr * json) : Prop :=
  ((utf8_length a.1 <? utf8_length b.1)
   || ((utf8_length a.1 =? utf8_length b.1) && str_leb a.1 b.1)) = true.

#[global] Instance jsonb_key_le_dec : RelDecision jsonb_key_le.
Proof. intros a b. unfold jsonb_key_le. apply _. Defined.

Fixpoint jsonb_norm (v : json) : json :=
  match v with
  | JArr l => JArr (map jsonb_norm l)
  | JObj kvs => JObj (merge_sort jsonb_key_le (map (fun kv => (kv.1, jsonb_norm kv.2)) kvs))
  | _ => v
  end.

(** jsonb has no text value holding the code unit 0. *)
Fixpoint has_nul (v : json) : bool :=
  match v with
  | JStr s => bool_decide (ch 0 ∈ s)
  | JArr l => existsb has_nul l
  | JObj kvs => existsb (fun kv => bool_decide (ch 0 ∈ kv.1) || has_nul kv.2) kvs
  | _ => false
  end.

(** Input conversion of a [JSONB] parameter: the stored value or the
    error message.  Duplicate keys keep the last value, as [json_parse]. *)
Definition jsonb_in (text : jstr) : json + jstr :=
  match json_parse text with
  | None => inr (lit "invalid input syntax for type json")
  | Some v => if has_nul v then inr (lit "unsupported Unicode escape sequence")
              else inl (jsonb_norm v)
  end.

(** A row of [webhook_logs]; times are milliseconds since the epoch.  A
    [JSONB] column is read back by pg already parsed ([JSON.parse] of the
    jsonb text, which gives the stored value back). *)
Record row := {
  id : Z;
  timestamp : Z;
  filename : jstr;
  headers : json;
  body : json;
  query : json;
  created_at : Z
}.

(** [SELECT filename, created_at FROM webhook_logs ORDER BY created_at DESC]:
    the rows in an order of decreasing [created_at]; ties come in any order. *)
Definition select_by_created_desc (rs out : list row) : Prop :=
  Permutation rs out /\ Sorted (fun a b => (created_at b <= created_at a)%Z) out.

(** [SELECT ... WHERE filename = $1]: the matching rows, in any order. *)
Definition select_by_filename (rs : list row) (name : jstr) (out : list row) : Prop :=
  Permutation (List.filter (fun r => bool_decide (filename r = name)) rs) out.

(* ------------------------------------------------------------------ *)
(** ** Configuration and state *)

(** [process.env.NODE_ENV === 'production'], whether [DATABASE_URL] is
    set, and [__dirname] (absolute, as segments). *)
Record config := {
  NODE_ENV_production : bool;
  DATABASE_URL : bool;
  dirname : list jstr
}.

Definition isProduction (c : config) : bool := NODE_ENV_production c || DATABASE_URL c.

(** [pool] is created iff [isProduction && process.env.DATABASE_URL]. *)
Definition pool (c : config) : bool := isProduction c && DATABASE_URL c.

(** The backend test of every handler: [isProduction && pool]. *)
Definition use_db (c : config) : bool := isProduction c && pool c.

(** [path.join(__dirname, 'logs')] *)
Definition logsDir (c : config) : list jstr := dirname c ++ [lit "logs"].

Definition logsDir_path (c : config) : fpath := {| fp_segs := logsDir c; fp_trail := false |}.

Record state := {
  files : fsys;
  webhook_logs : list row;
  next_id : Z   (* next value of the [id] sequence *)
}.

(** Start-up: [fs.ensureDirSync(logsDir)] outside production ([None]: it threw). *)
Definition startup (c : config) (st : state) : option state :=
  if isProduction c then Some st
  else match ensureDirSync (files st) (logsDir c) with
       | Some fs => Some {| files := fs; webhook_logs := webhook_logs st; next_id := next_id st |}
       | None => None
       end.

(** [INSERT INTO webhook_logs (filename, headers, body, query) VALUES ($1, $2, $3, $4)]
    at the database time [now]. *)
Definition db_insert (st : state) (now : Z) (fname h b q : jstr) : state + jstr :=
  match jsonb_in h, jsonb_in b, jsonb_in q with
  | inl hv, inl bv, inl qv =>
      inl {| files := files st;
             webhook_logs := webhook_logs st ++
               [{| id := next_id st; timestamp := now; filename := fname;
                   headers := hv; body := bv; query := qv; created_at := now |}];
             next_id := (next_id st + 1)%Z |}
  | inr e, _, _ => inr e
  | _, inr e, _ => inr e
  | _, _, inr e => inr e
  end.

(* ------------------------------------------------------------------ *)
(** ** Requests and responses *)

(** [req.headers], [req.body] (as parsed by body-parser) and [req.query]. *)
Record request := { req_headers : json; req_body : json; req_query : json }.

(** A value that is an object or an array. *)
Definition is_structured (v : json) : bool :=
  match v with JObj _ | JArr _ => true | _ => false end.

(** A payload as Express hands it over: headers and query are objects, the
    body is an object or an array (body-parser's strict JSON, urlencoded
    forms, or [{}] when there is no body), all JSON values. *)
Definition valid_request (req : request) : bool :=
  valid_json (req_headers req) && valid_json (req_body req) && valid_json (req_query req)
  && is_structured (req_headers req) && is_structured (req_body req)
  && is_structured (req_query req).

(** What each [new Date()] reads, what [NOW()] is in the database, and
    the failure of the medium if any. *)
Record post_env := {
  clock1 : Z;   (* line 80 *)
  clock2 : Z;   (* line 84 *)
  db_now : Z;
  fault : option save_fault
}.

Inductive read_error :=
| ErrSys (msg : jstr)    (* fs or pg error, with its message *)
| ErrSyntax              (* SyntaxError thrown by JSON.parse *)
| ErrType (msg : jstr).  (* TypeError *)

(** The HTML pages are given by the values they interpolate. *)
Inductive response :=
| RJson (status : nat) (body : json)            (* res.status(status).json(body) *)
| RText (status : nat) (text : jstr)            (* res.status(status).send(text) *)
| RError (prefix : jstr) (e : read_error)       (* res.status(500).send(prefix + err.message) *)
| RNoLogs (storage : jstr)                      (* the "No logs yet" page *)
| RLogList (names : list jstr) (storage : jstr) (* one link per name *)
| RLogPage (name : jstr) (headers body query : option json) (storage : jstr).
                                                (* undefined fields are None *)

Definition status_of (r : response) : nat :=
  match r with
  | RJson s _ | RText s _ => s
  | RError _ _ => 500
  | _ => 200
  end.

Definition storage_label (c : config) : jstr :=
  if use_db c then lit "Database (PostgreSQL)" else lit "Local Files".

(* ------------------------------------------------------------------ *)
(** ** [POST /webhook] *)

Definition log_data (ts : jstr) (req : request) : json :=
  JObj [(lit "timestamp", JStr ts); (lit "headers", req_headers req);
        (lit "body", req_body req); (lit "query", req_query req)].

(** The save: the new state, or the state after the failure and
    [error.message]. *)
Definition save (c : config) (st : state) (env : post_env) (fname : jstr) (logData : json)
  (req : request) : state + (state * jstr) :=
  if use_db c then
    match fault env with
    | Some (FDb msg) => inr (st, msg)
    | _ =>
        match db_insert st (db_now env) fname (json_stringify (req_headers req))
                (json_stringify (req_body req)) (json_stringify (req_query req)) with
        | inl st' => inl st'
        | inr msg => inr (st, msg)
        end
    end
  else
    let '(fs', err) := writeFileSync (files st) (path_join (logsDir c) fname)
                         (json_stringify2 logData) (fault env) in
    let st' := {| files := fs'; webhook_logs := webhook_logs st; next_id := next_id st |} in
    match err with None => inl st' | Some msg => inr (st', msg) end.

Definition post_webhook (c : config) (st : state) (env : post_env) (req : request)
  : state * response :=
  let fname := log_filename (clock1 env) in
  let logData := log_data (toISOString (clock2 env)) req in
  match save c st env fname logData req with
  | inl st' =>
      (st', RJson 200 (JObj [(lit "status", JStr (lit "success"));
                             (lit "message", JStr (lit "Webhook received and logged"));
                             (lit "timestamp", JStr (toISOString (clock2 env)));
                             (lit "storage", JStr (if use_db c then lit "database" else lit "file"))]))
  | inr (st', msg) =>
      (st', RJson 500 (JObj [(lit "status", JStr (lit "error"));
                             (lit "message", JStr (lit "Failed to save webhook"));
                             (lit "error", JStr msg)]))
  end.

(* ------------------------------------------------------------------ *)
(** ** [GET /logs] *)

(** [file.endsWith(suffix)] *)
Definition endsWith (s suffix : jstr) : bool :=
  (length suffix <=? length s) && bool_decide (drop (length s - length suffix) s = suffix).

(** [.sort().reverse()] *)
Definition sort_reverse (l : list jstr) : list jstr := reverse (merge_sort str_le l).

(** [if (logFiles.length === 0) ...] *)
Definition logs_page (c : config) (names : list jstr) : response :=
  match names with
  | [] => RNoLogs (storage_label c)
  | _ => RLogList names (storage_label c)
  end.

(** [qres] is what [pool.query] gave: rows, or the error message. *)
Definition get_logs (c : config) (st : state) (qres : jstr + list row) : response :=
  let logFiles :=
    if use_db c then
      match qres with inl msg => inr msg | inr rs => inl (map filename rs) end
    else
      match readdir (files st) (logsDir_path c) with
      | inl names => inl (sort_reverse (List.filter (fun f => endsWith f (lit ".json")) names))
      | inr msg => inr msg
      end in
  match logFiles with
  | inr msg => RError (lit "Error reading logs: ") (ErrSys msg)
  | inl names => logs_page c names
  end.

(* ------------------------------------------------------------------ *)
(** ** [GET /logs/:filename] *)

(** [typeof col === 'string' ? JSON.parse(col) : col] *)
Definition decode_col (v : json) : option json :=
  match v with JStr s => json_parse s | _ => Some v end.

(** [v[k]] on a parsed JSON value other than [null]: an own property, or
    [undefined] (no prototype in play has these names). *)
Definition get_prop (v : json) (k : jstr) : option json :=
  match v with
  | JObj kvs => match List.find (fun kv => bool_decide (kv.1 = k)) kvs with
                | Some kv => Some kv.2
                | None => None
                end
  | _ => None
  end.

Definition read_log_file (c : config) (st : state) (name : jstr) : response :=
  let filePath := path_join (logsDir c) name in
  if negb (pathExists (files st) filePath) then RText 404 (lit "Log not found")
  else match readFile (files st) filePath with
       | inr msg => RError (lit "Error reading log: ") (ErrSys msg)
       | inl logContent =>
           match json_parse logContent with
           | None => RError (lit "Error reading log: ") ErrSyntax
           | Some JNull =>
               RError (lit "Error reading log: ")
                      (ErrType (lit "Cannot read properties of null (reading 'headers')"))
           | Some logData =>
               RLogPage name (get_prop logData (lit "headers")) (get_prop logData (lit "body"))
                        (get_prop logData (lit "query")) (storage_label c)
           end
       end.

Definition get_log (c : config) (st : state) (name : jstr) (qres : jstr + list row) : response :=
  if use_db c then
    match qres with
    | inl msg => RError (lit "Error reading log: ") (ErrSys msg)
    | inr [] => RText 404 (lit "Log not found")
    | inr (r :: _) =>
        match decode_col (headers r), decode_col (body r), decode_col (query r) with
        | Some h, Some b, Some q => RLogPage name (Some h) (Some b) (Some q) (storage_label c)
        | _, _, _ => RError (lit "Error reading log: ") ErrSyntax
        end
    end
  else read_log_file c st name.

(** Requests to [POST /webhook] handled one after the other. *)
Fixpoint run_posts (c : config) (st : state) (ps : list (post_env * request))
  : state * list response :=
  match ps with
  | [] => (st, [])
  | (env, req) :: ps' =>
      let '(st1, r) := post_webhook c st env req in
      let '(stN, rs) := run_posts c st1 ps' in
      (stN, r :: rs)
  end.

(* ------------------------------------------------------------------ *)
(** ** Deployments and requests used as examples *)

(** The repository checked out at [/app]: [__dirname] is [/app/src]. *)
Definition app_src : list jstr := [lit "app"; lit "src"].

Definition cfg_dev : config :=
  {| NODE_ENV_production := false; DATABASE_URL := false; dirname := app_src |}.
Definition cfg_db : config :=
  {| NODE_ENV_production := true; DATABASE_URL := true; dirname := app_src |}.

Definition package_json : jstr :=
  sq "{'name': 'webhook-logger', 'body': {'main': 'src/server.js'}}".

(** The checkout before start-up. *)
Definition fs_checkout : fsys :=
  <[[lit "app"; lit "package.json"] := EFile package_json]>
  (<[app_src := EDir]> (<[[lit "app"] := EDir]> (<[[] := EDir]> ∅))).

Definition st_checkout : state := {| files := fs_checkout; webhook_logs := []; next_id := 1 |}.

(** After start-up outside production: the logs directory exists. *)
Definition st_dev : state :=
  match startup cfg_dev st_checkout with Some st => st | None => st_checkout end.

Definition env_at (t : Z) : post_env :=
  {| clock1 := t; clock2 := t; db_now := t; fault := None |}.

Definition req_a (n : Z) : request :=
  {| req_headers := JObj [(lit "content-type", JStr (lit "application/json"))];
     req_body := JObj [(lit "a", JNum n)];
     req_query := JObj [] |}.

(** [t0] is 2024-06-15T11:30:45.123Z. *)
Definition t0 : Z := 1718451045123.

(** A state with one more file. *)
Definition with_file (st : state) (p : list jstr) (content : jstr) : state :=
  {| files := <[p := EFile content]> (files st); webhook_logs := webhook_logs st;
     next_id := next_id st |}.

(** The logs directory of [st_dev] holding a file [notes.json] of someone's own. *)
Definition st_notes : state := with_file st_dev (logsDir cfg_dev ++ [lit "notes.json"]) (sq "{'n': 1}").

(** The logs directory of [st_dev] holding a truncated JSON file. *)
Definition st_broken : state := with_file st_dev (logsDir cfg_dev ++ [lit "broken.json"]) (lit "{").

(** The start of the request handled at [t0], with the clock passing to
    the next millisecond between the two [new Date()] calls. *)
Definition env_tick : post_env := {| clock1 := t0; clock2 := t0 + 1; db_now := t0; fault := None |}.


(* ------------------------------------------------------------------ *)
(** ** Further notions: file system shape, row ids, JSONB key order,
    URL-safe characters and the calendar of [toISOString] *)

#[global] Instance entry_eq_dec : EqDecision entry.
Proof. solve_decision. Defined.

Definition fs_wf (fs : fsys) : Prop :=
  fs !! [] = Some EDir /\
  map_Forall (fun k _ => k = [] \/ fs !! removelast k = Some EDir) fs.

#[global] Instance fs_wf_dec (fs : fsys) : Decision (fs_wf fs).
Proof. unfold fs_wf. apply _. Defined.

Definition ids_ok (st : state) : Prop :=
  Sorted (fun a b => (a < b)%Z) (map id (webhook_logs st)) /\
  Forall (fun rw => (id rw < next_id st)%Z) (webhook_logs st).

Fixpoint keys_sorted (v : json) : bool :=
  match v with
  | JArr l => forallb keys_sorted l
  | JObj kvs => bool_decide (Sorted jsonb_key_le kvs) && forallb (fun kv => keys_sorted kv.2) kvs
  | _ => true
  end.

Definition is_alpha (c : ascii) : bool :=
  let n := nat_of_ascii c in ((65 <=? n) && (n <=? 90)) || ((97 <=? n) && (n <=? 122)).

Definition url_safe (c : ascii) : bool :=
  is_digit c || is_alpha c || bool_decide (c ∈ lit "-+.").


Definition req_unsorted : request :=
  {| req_headers := JObj []; req_body := JObj [(lit "bb", JNum 1); (lit "a", JNum 2)];
     req_query := JObj [] |}.

Definition yoe_of (doe : Z) : Z := ((doe - doe / 1460 + doe / 36524 - doe / 146096) / 365)%Z.
Definition year_start (y : Z) : Z := (365 * y + y / 4 - y / 100)%Z.
Definition doy_civil (doy : Z) : Z * Z * Z :=
  let mp := ((5 * doy + 2) / 153)%Z in
  let d := (doy - (153 * mp + 2) / 5 + 1)%Z in
  let m := if (mp <? 10)%Z then (mp + 3)%Z else (mp - 9)%Z in
  ((if (m <=? 2)%Z then 1 else 0)%Z, m, d).
Definition era_key (doe : Z) : Z * Z * Z :=
  let y := yoe_of doe in
  let '(a, m, d) := doy_civil (doe - year_start y) in ((y + a)%Z, m, d).
Definition civil_lt (a b : Z * Z * Z) : Prop :=
  let '(y1, m1, d1) := a in let '(y2, m2, d2) := b in
  (y1 < y2 \/ (y1 = y2 /\ (m1 < m2 \/ (m1 = m2 /\ d1 < d2))))%Z.
Definition civil_ltb (a b : Z * Z * Z) : bool :=
  let '(y1, m1, d1) := a in let '(y2, m2, d2) := b in
  ((y1 <? y2) || ((y1 =? y2) && ((m1 <? m2) || ((m1 =? m2) && (d1 <? d2)))))%Z.
Definition civil_ok (a : Z * Z * Z) : bool :=
  let '(_, m, d) := a in ((1 <=? m) && (m <=? 12) && (1 <=? d) && (d <=? 31))%Z.
Fixpoint all_Z (P : Z -> bool) (fuel : nat) (k : Z) : bool :=
  match fuel with O => true | S f => P k && all_Z P f (k + 1)%Z end.

Definition str_lt (a b : jstr) : Prop := str_le a b /\ a <> b.

Definition pad_step_ok (w : nat) (k : Z) : bool :=
  str_leb (pad_num w k) (pad_num w (k + 1)) && negb (str_leb (pad_num w (k + 1)) (pad_num w k)).

Definition pad_len_ok (w : nat) (k : Z) : bool := (length (pad_num w k) =? w)%nat.

Definition iso_name (y m d h mi s ms : Z) : jstr :=
  pad_num 4 y ++ "-"%char :: pad_num 2 m ++ "-"%char :: pad_num 2 d
    ++ "T"%char :: pad_num 2 h ++ "-"%char :: pad_num 2 mi ++ "-"%char :: pad_num 2 s
    ++ "."%char :: pad_num 3 ms ++ ["Z"%char].

(* ------------------------------------------------------------------ *)
(** ** Measures and invariants used by the proofs *)

(** Characters that may follow a value in the output of [stringify]. *)
Definition delim (r : jstr) : bool :=
  match r with
  | [] => true
  | c :: _ => let n := nat_of_ascii c in
              (n =? 44) || (n =? 93) || (n =? 125) || is_ws c
  end.

Fixpoint jsize (v : json) : nat :=
  match v with
  | JArr l => S (list_sum (map (fun x => S (jsize x)) l))
  | JObj kvs => S (list_sum (map (fun kv => S (jsize kv.2)) kvs))
  | _ => 1
  end.

Definition elems_size (l : list json) : nat := list_sum (map (fun x => S (jsize x)) l).
Definition members_size (kvs : list (jstr * json)) : nat :=
  list_sum (map (fun kv => S (jsize kv.2)) kvs).

(** The separator and the member text of [stringify] at indentation [ind]. *)
Definition sep (gap ind : jstr) : jstr := ","%char :: nl gap (ind ++ gap).

Definition member_text (gap ind : jstr) (kv : jstr * json) : jstr :=
  quote kv.1 ++ ":"%char :: (match gap with [] => [] | _ => [" "%char] end)
    ++ stringify gap ind kv.2.

(** The round trip at a given amount of fuel, for values, for array
    elements and for object members. *)
Definition rt_value (gap : jstr) (fuel : nat) : Prop :=
  forall v w ind rest, forallb is_ws w = true -> forallb is_ws ind = true ->
    valid_json v = true -> jsize v <= fuel -> delim rest = true ->
    parse_value fuel (w ++ stringify gap ind v ++ rest) = Some (v, rest).

Definition rt_elems (gap : jstr) (fuel : nat) : Prop :=
  forall vs acc ind rest, vs <> [] -> forallb is_ws ind = true ->
    forallb valid_json vs = true -> elems_size vs <= fuel ->
    parse_elems fuel (nl gap (ind ++ gap)
                      ++ join_with (sep gap ind) (map (stringify gap (ind ++ gap)) vs)
                      ++ nl gap ind ++ "]"%char :: rest) acc = Some (acc ++ vs, rest).

Definition rt_members (gap : jstr) (fuel : nat) : Prop :=
  forall kvs acc ind rest, kvs <> [] -> forallb is_ws ind = true ->
    NoDup (map fst (acc ++ kvs)) -> forallb (fun kv => valid_json kv.2) kvs = true ->
    members_size kvs <= fuel ->
    parse_members fuel (nl gap (ind ++ gap)
                        ++ join_with (sep gap ind) (map (member_text gap (ind ++ gap)) kvs)
                        ++ nl gap ind ++ "}"%char :: rest) acc = Some (acc ++ kvs, rest).

(* ------------------------------------------------------------------ *)
(** ** Examples *)

Example stringify_ex :
  json_stringify (JObj [(lit "a", JArr [JNum 1; JNum (-20); JStr (sq "x'y")])])
  = sq "{'a':[1,-20,'x\'y']}".
Proof. reflexivity. Qed.

Example stringify2_ex :
  json_stringify2 (JObj [(lit "a", JArr [JNum 1; JNull]); (lit "b", JObj [])])
  = sq ("{" ++ String (ch 10) "  'a': [" ++ String (ch 10) "    1,"
         ++ String (ch 10) "    null" ++ String (ch 10) "  ],"
         ++ String (ch 10) "  'b': {}" ++ String (ch 10) "}")%string.
Proof. reflexivity. Qed.

Example parse_ex :
  json_parse (sq " {'a' : [1, -20, 'x\'yA'], 'a': true} ")
  = Some (JObj [(lit "a", JBool true)]).
Proof. reflexivity. Qed.

Example parse_bad : json_parse (sq "{'a':01}") = None.
Proof. reflexivity. Qed.

Example toISOString_ex : toISOString 1718451045123 = lit "2024-06-15T11:30:45.123Z".
Proof. vm_compute. reflexivity. Qed.

Example toISOString_ex0 : toISOString 0 = lit "1970-01-01T00:00:00.000Z".
Proof. vm_compute. reflexivity. Qed.

Example toISOString_neg : toISOString (-1) = lit "1969-12-31T23:59:59.999Z".
Proof. vm_compute. reflexivity. Qed.

Example log_filename_ex :
  log_filename 1718451045123 = lit "webhook-2024-06-15T11-30-45.123Z.json".
Proof. vm_compute. reflexivity. Qed.

(* ------------------------------------------------------------------ *)
(** ** Round trip of [JSON.stringify] through [JSON.parse] *)

Lemma skip_ws_app (w s : jstr) :
  forallb is_ws w = true -> skip_ws (w ++ s) = skip_ws s.
Proof.
  induction w as [|c w IH]; simpl; [done|].
  intros H. apply andb_prop in H as [Hc Hw]. rewrite Hc. auto.
Qed.

Lemma skip_ws_nonws (c : ascii) (s : jstr) :
  is_ws c = false -> skip_ws (c :: s) = c :: s.
Proof. simpl. intros ->. done. Qed.

Lemma quote_char_parse (c : ascii) (x : jstr) :
  parse_string_body (quote_char c ++ x) = cons_fst c (parse_string_body x).
Proof.
  destruct c as [[] [] [] [] [] [] [] []]; reflexivity.
Qed.

Lemma quote_body_parse (s rest : jstr) :
  parse_string_body (flat_map quote_char s ++ dq :: rest) = Some (s, rest).
Proof.
  induction s as [|c s IH]; simpl; [done|].
  rewrite <- app_assoc, quote_char_parse, IH. done.
Qed.

Lemma digit_char_code (d : N) :
  (d < 10)%N -> nat_of_ascii (digit_char d) = 48 + N.to_nat d.
Proof.
  intros Hd. unfold digit_char, ch. apply nat_ascii_embedding. lia.
Qed.

Lemma digit_val_char (d : N) : (d < 10)%N -> digit_val (digit_char d) = Some d.
Proof.
  intros Hd. unfold digit_val. rewrite digit_char_code by done.
  replace ((48 <=? 48 + N.to_nat d) && (48 + N.to_nat d <=? 57)) with true.
  - f_equal. lia.
  - symmetry. apply andb_true_intro. split; apply Nat.leb_le; lia.
Qed.

Lemma n_digits_fuel_digits (f : nat) (n : N) :
  Forall (fun c => is_digit c = true) (n_digits_fuel f n).
Proof.
  revert n. induction f as [|f IH]; intros n; simpl; [constructor|].
  destruct (N.ltb_spec n 10).
  - repeat constructor. unfold is_digit. rewrite digit_val_char; done.
  - apply Forall_app. split; [apply IH|].
    repeat constructor. unfold is_digit. rewrite digit_val_char; [done|].
    apply N.mod_lt. lia.
Qed.

Lemma read_digits_app (acc : N) (ds rest : jstr) :
  Forall (fun c => is_digit c = true) ds ->
  read_digits acc (ds ++ rest) = read_digits (read_digits acc ds).1 rest.
Proof.
  revert acc. induction ds as [|c ds IH]; intros acc Hds; simpl; [done|].
  inversion Hds as [|? ? Hc Hds']; subst.
  unfold is_digit in Hc. destruct (digit_val c); [|done]. apply IH, Hds'.
Qed.

Lemma read_digits_stop (acc : N) (rest : jstr) :
  match rest with c :: _ => is_digit c = false | [] => True end ->
  read_digits acc rest = (acc, rest).
Proof.
  destruct rest as [|c r]; simpl; [done|].
  unfold is_digit. destruct (digit_val c); done.
Qed.

Lemma n_digits_fuel_value (f : nat) (n : N) :
  (n < 10 ^ N.of_nat f)%N -> (read_digits 0 (n_digits_fuel f n)).1 = n.
Proof.
  revert n. induction f as [|f IH]; intros n Hn; cbn [n_digits_fuel].
  - rewrite N.pow_0_r in Hn. cbn [read_digits fst]. lia.
  - destruct (N.ltb_spec n 10).
    + cbn [read_digits]. rewrite digit_val_char by done. cbn [read_digits fst]. lia.
    + rewrite read_digits_app by apply n_digits_fuel_digits.
      rewrite IH.
      * cbn [read_digits]. rewrite digit_val_char by (apply N.mod_lt; lia).
        cbn [read_digits fst]. pose proof (N.div_mod n 10). lia.
      * apply N.Div0.div_lt_upper_bound.
        rewrite Nat2N.inj_succ, N.pow_succ_r' in Hn. done.
Qed.

Lemma n_digits_fuel_head (f : nat) (n : N) :
  (n < 10 ^ N.of_nat (S f))%N ->
  exists d t, (d < 10)%N /\ (1 <= n -> 1 <= d)%N /\
              n_digits_fuel (S f) n = digit_char d :: t.
Proof.
  revert n. induction f as [|f IH]; intros n Hn; cbn [n_digits_fuel].
  - destruct (N.ltb_spec n 10) as [Hlt|Hge].
    + exists n, []. split_and!; done.
    + rewrite N.pow_1_r in Hn. lia.
  - destruct (N.ltb_spec n 10) as [Hlt|Hge].
    + exists n, []. split_and!; done.
    + destruct (IH (n / 10)%N) as (d & t & Hd & Hnz & Heq).
      { apply N.Div0.div_lt_upper_bound.
        rewrite Nat2N.inj_succ, N.pow_succ_r' in Hn. done. }
      exists d, (t ++ [digit_char (n mod 10)%N]).
      split_and!; [done| |].
      * intros _. apply Hnz. apply N.div_le_lower_bound; lia.
      * cbn [n_digits_fuel] in Heq. rewrite Heq. done.
Qed.

Lemma n_digits_fuel_enough (n : N) :
  (n < 10 ^ N.of_nat (S (N.to_nat (N.size n))))%N.
Proof.
  pose proof (N.size_gt n) as H.
  rewrite Nat2N.inj_succ, N2Nat.id.
  assert (2 ^ N.size n <= 10 ^ N.size n)%N by (apply N.pow_le_mono_l; lia).
  assert (10 ^ N.size n <= 10 ^ N.succ (N.size n))%N
    by (apply N.pow_le_mono_r; lia).
  lia.
Qed.

Lemma delim_char (c : ascii) :
  delim [c] = true -> is_digit c = false /\ frac_or_exp [c] = false.
Proof.
  destruct c as [[] [] [] [] [] [] [] []]; cbv; intros H; try discriminate; auto.
Qed.

Lemma delim_rest (rest : jstr) :
  delim rest = true ->
  match rest with c :: _ => is_digit c = false | [] => True end /\
  frac_or_exp rest = false.
Proof.
  destruct rest as [|c r]; [done|]. intros H. apply (delim_char c H).
Qed.

Lemma n_digits_parse (p : positive) (rest : jstr) :
  delim rest = true ->
  parse_unsigned (n_digits (Npos p) ++ rest) = Some (Npos p, rest).
Proof.
  intros Hd. destruct (delim_rest rest Hd) as [Hstop _].
  pose proof (n_digits_fuel_enough (Npos p)) as Hen.
  destruct (n_digits_fuel_head _ _ Hen) as (d & t & Hd10 & Hnz & Heq).
  unfold n_digits. rewrite Heq. cbn [app parse_unsigned].
  rewrite digit_char_code by done.
  replace (48 + N.to_nat d =? 48) with false by (symmetry; apply Nat.eqb_neq; lia).
  unfold is_digit at 1. rewrite digit_val_char by done.
  rewrite app_comm_cons, <- Heq, read_digits_app by apply n_digits_fuel_digits.
  rewrite n_digits_fuel_value by done. rewrite read_digits_stop by done. done.
Qed.

Lemma number_parse (z : Z) (rest : jstr) :
  delim rest = true ->
  parse_number (number_to_string z ++ rest) = Some (JNum z, rest).
Proof.
  intros Hd. destruct (delim_rest rest Hd) as [Hstop Hfe].
  destruct z as [|p|p].
  - unfold parse_number. cbn [number_to_string lit list_ascii_of_string app].
    destruct rest as [|c r]; [done|].
    unfold parse_unsigned. change (nat_of_ascii "0"%char =? 45) with false.
    change (nat_of_ascii "0"%char =? 48) with true. cbv iota beta.
    rewrite Hstop. change (nat_of_ascii "0"%char =? 48) with true. cbv iota beta. rewrite Hfe. done.
  - unfold parse_number. cbn [number_to_string].
    pose proof (n_digits_fuel_enough (Npos p)) as Hen.
    destruct (n_digits_fuel_head _ _ Hen) as (d & t & Hd10 & Hnz & Heq).
    unfold n_digits at 1. rewrite Heq. cbn [app].
    rewrite digit_char_code by done.
    replace (48 + N.to_nat d =? 45) with false by (symmetry; apply Nat.eqb_neq; lia).
    rewrite n_digits_parse by done. rewrite Hfe. done.
  - unfold parse_number. cbn [number_to_string app].
    simpl (nat_of_ascii _ =? _). cbv iota beta.
    rewrite n_digits_parse by done. rewrite Hfe. done.
Qed.

Lemma elems_size_nil : elems_size [] = 0.
Proof. reflexivity. Qed.

Lemma elems_size_cons (x : json) (l : list json) :
  elems_size (x :: l) = S (jsize x) + elems_size l.
Proof. reflexivity. Qed.

Lemma members_size_nil : members_size [] = 0.
Proof. reflexivity. Qed.

Lemma members_size_cons (kv : jstr * json) (l : list (jstr * json)) :
  members_size (kv :: l) = S (jsize kv.2) + members_size l.
Proof. reflexivity. Qed.

Lemma jsize_pos (v : json) : 1 <= jsize v.
Proof. destruct v; cbn [jsize]; apply le_n_S, Nat.le_0_l. Qed.

Lemma parse_value_ws (f : nat) (w s : jstr) :
  forallb is_ws w = true -> parse_value f (w ++ s) = parse_value f s.
Proof. intros Hw. destruct f as [|f]; [done|]. simpl parse_value. rewrite skip_ws_app by done. done. Qed.

Lemma digit_char_props (d : N) :
  (d < 10)%N ->
  is_ws (digit_char d) = false /\ nat_of_ascii (digit_char d) <> 93 /\
  nat_of_ascii (digit_char d) <> 125 /\ nat_of_ascii (digit_char d) <> 44 /\
  nat_of_ascii (digit_char d) <> 110 /\ nat_of_ascii (digit_char d) <> 116 /\
  nat_of_ascii (digit_char d) <> 102 /\ nat_of_ascii (digit_char d) <> 34 /\
  nat_of_ascii (digit_char d) <> 91 /\ nat_of_ascii (digit_char d) <> 123.
Proof.
  intros Hd. unfold is_ws. rewrite digit_char_code by done. cbv zeta.
  split_and!; [|lia..].
  repeat rewrite (proj2 (Nat.eqb_neq _ _)) by lia. done.
Qed.

(** The first character of a number. *)
Lemma number_to_string_head (z : Z) :
  exists c t, number_to_string z = c :: t /\
    is_ws c = false /\ nat_of_ascii c <> 93 /\ nat_of_ascii c <> 125 /\
    nat_of_ascii c <> 44 /\ nat_of_ascii c <> 110 /\ nat_of_ascii c <> 116 /\
    nat_of_ascii c <> 102 /\ nat_of_ascii c <> 34 /\ nat_of_ascii c <> 91 /\
    nat_of_ascii c <> 123.
Proof.
  destruct z as [|p|p]; cbn [number_to_string].
  - eexists _, _. split; [reflexivity|]. cbv. split_and!; try discriminate; congruence.
  - pose proof (n_digits_fuel_enough (Npos p)) as Hen.
    destruct (n_digits_fuel_head _ _ Hen) as (d & t & Hd10 & _ & Heq).
    unfold n_digits. rewrite Heq. eexists _, _. split; [reflexivity|].
    apply digit_char_props; done.
  - eexists _, _. split; [reflexivity|]. cbv. split_and!; try discriminate; congruence.
Qed.

Lemma parse_value_number (f : nat) (c : ascii) (t : jstr) :
  is_ws c = false -> nat_of_ascii c <> 110 -> nat_of_ascii c <> 116 ->
  nat_of_ascii c <> 102 -> nat_of_ascii c <> 34 -> nat_of_ascii c <> 91 ->
  nat_of_ascii c <> 123 ->
  parse_value (S f) (c :: t) = parse_number (c :: t).
Proof.
  intros Hws H1 H2 H3 H4 H5 H6. cbn [parse_value skip_ws]. rewrite Hws.
  repeat match goal with
         | |- context [nat_of_ascii c =? ?n] =>
             replace (nat_of_ascii c =? n) with false by (symmetry; apply Nat.eqb_neq; done)
         end.
  done.
Qed.

Lemma assoc_set_new (k : jstr) (v : json) (acc : list (jstr * json)) :
  k ∉ map fst acc -> assoc_set k v acc = acc ++ [(k, v)].
Proof.
  induction acc as [|[k' v'] acc IH]; simpl; [done|].
  intros Hk. rewrite bool_decide_false.
  - rewrite IH; [done|]. set_solver.
  - set_solver.
Qed.

Lemma join_with_cons (sep x : jstr) (l : list jstr) :
  join_with sep (x :: l) = x ++ match l with [] => [] | _ => sep ++ join_with sep l end.
Proof. destruct l; simpl; [by rewrite app_nil_r|done]. Qed.

Ltac char_facts := split_and!; first [reflexivity | (cbv; congruence)].

Section roundtrip.
Variable gap : jstr.
Hypothesis Hgap : forallb is_ws gap = true.

Lemma nl_ws (ind : jstr) : forallb is_ws ind = true -> forallb is_ws (nl gap ind) = true.
Proof. destruct gap; simpl; [done|]. intros ->. done. Qed.

Lemma sp_ws : forallb is_ws (match gap with [] => [] | _ => [" "%char] end) = true.
Proof. destruct gap; done. Qed.

Lemma ind_gap_ws (ind : jstr) :
  forallb is_ws ind = true -> forallb is_ws (ind ++ gap) = true.
Proof. intros H. rewrite forallb_app, H, Hgap. done. Qed.

Lemma stringify_head (ind : jstr) (v : json) :
  exists c t, stringify gap ind v = c :: t /\ is_ws c = false /\
    nat_of_ascii c <> 93 /\ nat_of_ascii c <> 125 /\ nat_of_ascii c <> 44.
Proof.
  destruct v as [| [] | z | s | [|x l] | [|kv kvs]].
  - eexists _, _. split; [reflexivity|]. char_facts.
  - eexists _, _. split; [reflexivity|]. char_facts.
  - eexists _, _. split; [reflexivity|]. char_facts.
  - destruct (number_to_string_head z) as (c & t & Heq & H). exists c, t.
    cbn [stringify]. rewrite Heq. split; [done|]. naive_solver.
  - eexists _, _. split; [reflexivity|]. char_facts.
  - eexists _, _. split; [reflexivity|]. char_facts.
  - eexists _, _. split; [reflexivity|]. char_facts.
  - eexists _, _. split; [reflexivity|]. char_facts.
  - eexists _, _. split; [reflexivity|]. char_facts.
Qed.

Lemma delim_close (ind rest : jstr) (c : ascii) :
  c = "]"%char \/ c = "}"%char -> delim (nl gap ind ++ c :: rest) = true.
Proof. intros [-> | ->]; destruct gap; reflexivity. Qed.

Lemma skip_ws_close (ind rest : jstr) (c : ascii) :
  forallb is_ws ind = true -> c = "]"%char \/ c = "}"%char ->
  skip_ws (nl gap ind ++ c :: rest) = c :: rest.
Proof.
  intros Hind Hn. rewrite skip_ws_app by (apply nl_ws; done).
  destruct Hn as [-> | ->]; reflexivity.
Qed.

Lemma stringify_arr (ind : jstr) (x : json) (l : list json) :
  stringify gap ind (JArr (x :: l)) =
  "["%char :: nl gap (ind ++ gap)
    ++ join_with (sep gap ind) (map (stringify gap (ind ++ gap)) (x :: l))
    ++ nl gap ind ++ ["]"%char].
Proof. reflexivity. Qed.

Lemma stringify_obj (ind : jstr) (kv : jstr * json) (kvs : list (jstr * json)) :
  stringify gap ind (JObj (kv :: kvs)) =
  "{"%char :: nl gap (ind ++ gap)
    ++ join_with (sep gap ind) (map (member_text gap (ind ++ gap)) (kv :: kvs))
    ++ nl gap ind ++ ["}"%char].
Proof. reflexivity. Qed.
End roundtrip.

Lemma parse_value_arr (f : nat) (r : jstr) :
  parse_value (S f) ("["%char :: r) =
  match head_is 93 (skip_ws r) with
  | Some r' => Some (JArr [], r')
  | None => match parse_elems f r [] with Some (l, r') => Some (JArr l, r') | None => None end
  end.
Proof. reflexivity. Qed.

Lemma parse_value_obj (f : nat) (r : jstr) :
  parse_value (S f) ("{"%char :: r) =
  match head_is 125 (skip_ws r) with
  | Some r' => Some (JObj [], r')
  | None => match parse_members f r [] with Some (l, r') => Some (JObj l, r') | None => None end
  end.
Proof. reflexivity. Qed.

Lemma parse_value_str (f : nat) (r : jstr) :
  parse_value (S f) (dq :: r) =
  match parse_string_body r with Some (str, r') => Some (JStr str, r') | None => None end.
Proof. reflexivity. Qed.

Lemma parse_elems_S (f : nat) (s : jstr) (acc : list json) :
  parse_elems (S f) s acc =
  match parse_value f s with
  | Some (v, r) =>
      match head_is 44 (skip_ws r) with
      | Some r' => parse_elems f r' (acc ++ [v])
      | None => match head_is 93 (skip_ws r) with Some r' => Some (acc ++ [v], r') | None => None end
      end
  | None => None
  end.
Proof. reflexivity. Qed.

Lemma parse_members_S (f : nat) (s : jstr) (acc : list (jstr * json)) :
  parse_members (S f) s acc =
  match head_is 34 (skip_ws s) with
  | Some r =>
      match parse_string_body r with
      | Some (k, r1) =>
          match head_is 58 (skip_ws r1) with
          | Some r2 =>
              match parse_value f r2 with
              | Some (v, r3) =>
                  match head_is 44 (skip_ws r3) with
                  | Some r5 => parse_members f r5 (assoc_set k v acc)
                  | None => match head_is 125 (skip_ws r3) with
                            | Some r5 => Some (assoc_set k v acc, r5)
                            | None => None end
                  end
              | None => None
              end
          | None => None
          end
      | None => None
      end
  | None => None
  end.
Proof. reflexivity. Qed.

Lemma head_is_ne (n : nat) (c : ascii) (s : jstr) :
  nat_of_ascii c <> n -> head_is n (c :: s) = None.
Proof. intros H. simpl. apply Nat.eqb_neq in H. rewrite H. done. Qed.

Lemma head_is_eq (n : nat) (c : ascii) (s : jstr) :
  nat_of_ascii c = n -> head_is n (c :: s) = Some s.
Proof. intros H. simpl. rewrite H, Nat.eqb_refl. done. Qed.

Lemma join_with_one (sep x : jstr) : join_with sep [x] = x.
Proof. reflexivity. Qed.

Lemma join_with_two (sep x y : jstr) (l : list jstr) :
  join_with sep (x :: y :: l) = x ++ sep ++ join_with sep (y :: l).
Proof. reflexivity. Qed.

Lemma nodupb_NoDup (l : list jstr) : nodupb l = true -> NoDup l.
Proof.
  induction l as [|x l IH]; simpl; [constructor|].
  intros H. apply andb_prop in H as [Hx Hl].
  constructor; [|auto]. apply negb_true_iff, bool_decide_eq_false in Hx. done.
Qed.

Ltac norm_app :=
  repeat (rewrite <- app_assoc || rewrite <- app_comm_cons || rewrite app_nil_l).

Section roundtrip_main.
Variable gap : jstr.
Hypothesis Hgap : forallb is_ws gap = true.

Lemma sep_app (ind x : jstr) : sep gap ind ++ x = ","%char :: nl gap (ind ++ gap) ++ x.
Proof. reflexivity. Qed.

Lemma roundtrip_elems_step (f : nat) :
  rt_value gap f -> rt_elems gap f -> rt_elems gap (S f).
Proof.
  intros IHA IHB vs acc ind rest Hne Hind Hval Hsz.
  destruct vs as [|x l]; [done|].
  simpl in Hval. apply andb_prop in Hval as [Hx Hl].
  rewrite elems_size_cons in Hsz.
  assert (Hind' : forallb is_ws (ind ++ gap) = true) by (apply ind_gap_ws; done).
  destruct l as [|y l'].
  - cbn [map]. rewrite join_with_one, parse_elems_S.
    rewrite IHA; [|apply nl_ws; done|done|done|rewrite elems_size_nil in Hsz; lia|apply delim_close; auto].
    rewrite skip_ws_close by auto.
    rewrite head_is_ne by (cbv; congruence).
    rewrite head_is_eq by reflexivity. done.
  - cbn [map]. rewrite join_with_two. norm_app. rewrite sep_app, parse_elems_S.
    rewrite IHA; [|apply nl_ws; done|done|done|lia|reflexivity].
    rewrite skip_ws_nonws by reflexivity.
    rewrite head_is_eq by reflexivity.
    change (stringify gap (ind ++ gap) y :: map (stringify gap (ind ++ gap)) l')
      with (map (stringify gap (ind ++ gap)) (y :: l')).
    rewrite IHB; [|done|done|done|rewrite elems_size_cons in *; lia].
    rewrite <- app_assoc. done.
Qed.

Lemma roundtrip_members_step (f : nat) :
  rt_value gap f -> rt_members gap f -> rt_members gap (S f).
Proof.
  intros IHA IHC kvs acc ind rest Hne Hind Hnd Hval Hsz.
  destruct kvs as [|[k x] l]; [done|].
  simpl in Hval. apply andb_prop in Hval as [Hx Hl].
  rewrite members_size_cons in Hsz. cbn [snd] in Hsz.
  assert (Hind' : forallb is_ws (ind ++ gap) = true) by (apply ind_gap_ws; done).
  assert (Hk : k ∉ map fst acc).
  { rewrite map_app in Hnd. cbn [map fst] in Hnd.
    apply NoDup_app in Hnd as (_ & Hdis & _). intros Hin. specialize (Hdis k Hin). set_solver. }
  destruct l as [|kv' l'].
  - cbn [map]. rewrite join_with_one. unfold member_text, quote. cbn [fst snd].
    norm_app. rewrite parse_members_S.
    rewrite skip_ws_app by (apply nl_ws; done).
    rewrite skip_ws_nonws, head_is_eq by reflexivity.
    rewrite quote_body_parse.
    rewrite skip_ws_nonws, head_is_eq by reflexivity.
    rewrite IHA; [|apply sp_ws; done|done|done|rewrite members_size_nil in Hsz; lia
                 |apply delim_close; auto].
    rewrite skip_ws_close by auto.
    rewrite head_is_ne by (cbv; congruence).
    rewrite head_is_eq by reflexivity.
    rewrite assoc_set_new by done. done.
  - cbn [map]. rewrite join_with_two. unfold member_text at 1, quote. cbn [fst snd].
    norm_app. rewrite sep_app, parse_members_S.
    rewrite skip_ws_app by (apply nl_ws; done).
    rewrite skip_ws_nonws, head_is_eq by reflexivity.
    rewrite quote_body_parse.
    rewrite skip_ws_nonws, head_is_eq by reflexivity.
    rewrite IHA; [|apply sp_ws; done|done|done|lia|reflexivity].
    rewrite skip_ws_nonws by reflexivity.
    rewrite head_is_eq by reflexivity.
    rewrite assoc_set_new by done.
    change (member_text gap (ind ++ gap) kv' :: map (member_text gap (ind ++ gap)) l')
      with (map (member_text gap (ind ++ gap)) (kv' :: l')).
    rewrite IHC; [|done|done|rewrite <- app_assoc; done|done
                 |rewrite members_size_cons in *; lia].
    rewrite <- app_assoc. done.
Qed.

Lemma roundtrip_value_step (f : nat) :
  rt_value gap f -> rt_elems gap f -> rt_members gap f -> rt_value gap (S f).
Proof.
  intros IHA IHB IHC v w ind rest Hw Hind Hval Hsz Hd.
  rewrite parse_value_ws by done.
  assert (Hind' : forallb is_ws (ind ++ gap) = true) by (apply ind_gap_ws; done).
  destruct v as [| [] | z | s | [|x l] | [|[k x] kvs]].
  - reflexivity.
  - reflexivity.
  - reflexivity.
  - change (stringify gap ind (JNum z)) with (number_to_string z).
    destruct (number_to_string_head z) as (c & t & Heq & Hws & _ & _ & _ & H1 & H2 & H3 & H4 & H5 & H6).
    rewrite Heq, <- app_comm_cons, parse_value_number by done.
    rewrite app_comm_cons, <- Heq. apply number_parse, Hd.
  - change (stringify gap ind (JStr s)) with (quote s). unfold quote.
    norm_app. rewrite parse_value_str, quote_body_parse. done.
  - reflexivity.
  - rewrite stringify_arr. norm_app. rewrite parse_value_arr.
    assert (Hh : head_is 93 (skip_ws (nl gap (ind ++ gap)
                  ++ join_with (sep gap ind) (map (stringify gap (ind ++ gap)) (x :: l))
                  ++ nl gap ind ++ "]"%char :: rest)) = None).
    { rewrite skip_ws_app by (apply nl_ws; done).
      cbn [map]. rewrite join_with_cons.
      destruct (stringify_head gap (ind ++ gap) x) as (c & t & Heq & Hws & H93 & _).
      rewrite Heq. norm_app. rewrite skip_ws_nonws by done. apply head_is_ne, H93. }
    rewrite Hh, IHB; [done|done|done|exact Hval|cbn [jsize] in Hsz; exact (le_S_n _ _ Hsz)].
  - reflexivity.
  - rewrite stringify_obj. norm_app. rewrite parse_value_obj.
    assert (Hh : head_is 125 (skip_ws (nl gap (ind ++ gap)
                  ++ join_with (sep gap ind) (map (member_text gap (ind ++ gap)) ((k, x) :: kvs))
                  ++ nl gap ind ++ "}"%char :: rest)) = None).
    { rewrite skip_ws_app by (apply nl_ws; done).
      cbn [map]. rewrite join_with_cons. unfold member_text at 1, quote. norm_app.
      rewrite skip_ws_nonws by reflexivity. apply head_is_ne. cbv. congruence. }
    simpl in Hval. apply andb_prop in Hval as [Hnd Hval].
    rewrite Hh, IHC; [done|done|done|apply nodupb_NoDup; exact Hnd|exact Hval
                     |cbn [jsize] in Hsz; exact (le_S_n _ _ Hsz)].
Qed.

Lemma roundtrip_fuel (fuel : nat) : rt_value gap fuel /\ rt_elems gap fuel /\ rt_members gap fuel.
Proof.
  induction fuel as [|f [IHA [IHB IHC]]].
  - split_and!.
    + intros v w ind rest _ _ _ Hsz _. pose proof (jsize_pos v). lia.
    + intros [|x l] acc ind rest Hne _ _ Hsz; [done|].
      rewrite elems_size_cons in Hsz. lia.
    + intros [|kv l] acc ind rest Hne _ _ _ Hsz; [done|].
      rewrite members_size_cons in Hsz. lia.
  - split_and!.
    + apply roundtrip_value_step; done.
    + apply roundtrip_elems_step; done.
    + apply roundtrip_members_step; done.
Qed.
End roundtrip_main.

Lemma join_size {A} (F : A -> jstr) (sz : A -> nat) (sp : jstr) (l : list A) :
  sp <> [] -> Forall (fun a => sz a <= length (F a)) l ->
  list_sum (map (fun a => S (sz a)) l) <= S (length (join_with sp (map F l))).
Proof.
  intros Hsp. induction l as [|x l IH]; intros Hl; [cbn; lia|].
  inversion Hl as [|? ? Hx Hl']; subst.
  destruct l as [|y l]; [cbn; lia|].
  cbn [map]. rewrite join_with_two. specialize (IH Hl'). cbn [map] in IH.
  cbn [list_sum foldr] in *.
  rewrite !length_app. destruct sp; [done|]. cbn [length]. lia.
Qed.

Lemma stringify_length (gap ind : jstr) (v : json) :
  jsize v <= length (stringify gap ind v).
Proof.
  revert ind. induction v as [| b | z | s | l IH | kvs IH] using json_ind'; intros ind.
  - cbn. lia.
  - destruct b; cbn; lia.
  - change (stringify gap ind (JNum z)) with (number_to_string z).
    destruct (number_to_string_head z) as (c & t & -> & _). cbn. lia.
  - cbn [stringify jsize quote length]. lia.
  - destruct l as [|x l]; [cbn; lia|].
    rewrite stringify_arr. cbn [length]. rewrite !length_app.
    pose proof (join_size (stringify gap (ind ++ gap)) jsize (sep gap ind) (x :: l))
      as Hj.
    change (jsize (JArr (x :: l))) with (S (list_sum (map (fun a => S (jsize a)) (x :: l)))).
    cbn [length].
    assert (list_sum (map (fun a => S (jsize a)) (x :: l))
            <= S (length (join_with (sep gap ind) (map (stringify gap (ind ++ gap)) (x :: l)))));
      [|lia].
    apply Hj; [discriminate|]. eapply Forall_impl; [exact IH|]. intros a Ha. apply Ha.
  - destruct kvs as [|kv kvs]; [cbn; lia|].
    rewrite stringify_obj. cbn [length]. rewrite !length_app.
    pose proof (join_size (member_text gap (ind ++ gap)) (fun kv => jsize kv.2)
                  (sep gap ind) (kv :: kvs)) as Hj.
    change (jsize (JObj (kv :: kvs)))
      with (S (list_sum (map (fun a : jstr * json => S (jsize a.2)) (kv :: kvs)))).
    cbn [length].
    assert (list_sum (map (fun a : jstr * json => S (jsize a.2)) (kv :: kvs))
            <= S (length (join_with (sep gap ind) (map (member_text gap (ind ++ gap)) (kv :: kvs)))));
      [|lia].
    apply Hj; [discriminate|]. eapply Forall_impl; [exact IH|]. intros a Ha.
    unfold member_text. rewrite !length_app. cbn [length]. rewrite length_app.
    specialize (Ha (ind ++ gap)). lia.
Qed.

(** [JSON.parse(JSON.stringify(v, null, gap))] gives [v] back. *)
Lemma json_parse_stringify (gap : jstr) (v : json) :
  forallb is_ws gap = true -> valid_json v = true ->
  json_parse (stringify gap [] v) = Some v.
Proof.
  intros Hgap Hv. unfold json_parse.
  destruct (roundtrip_fuel gap Hgap (S (length (stringify gap [] v)))) as [HA _].
  pose proof (HA v [] [] [] eq_refl eq_refl Hv) as H.
  rewrite app_nil_l, app_nil_r in H. rewrite H; [done| |done].
  pose proof (stringify_length gap [] v). lia.
Qed.

Lemma json_parse_stringify0 (v : json) :
  valid_json v = true -> json_parse (json_stringify v) = Some v.
Proof. apply json_parse_stringify. done. Qed.

Lemma json_parse_stringify2 (v : json) :
  valid_json v = true -> json_parse (json_stringify2 v) = Some v.
Proof. apply json_parse_stringify. done. Qed.

(* ------------------------------------------------------------------ *)
(** ** File names of saves *)

Lemma is_digit_not_slash (c : ascii) : is_digit c = true -> c <> "/"%char.
Proof. intros H ->. discriminate. Qed.

Lemma number_to_string_no_slash (z : Z) :
  Forall (fun c => c <> "/"%char) (number_to_string z).
Proof.
  destruct z as [|p|p]; cbn [number_to_string].
  - repeat constructor; discriminate.
  - eapply Forall_impl; [apply n_digits_fuel_digits|]. apply is_digit_not_slash.
  - constructor; [discriminate|].
    eapply Forall_impl; [apply n_digits_fuel_digits|]. apply is_digit_not_slash.
Qed.

Lemma pad_num_no_slash (w : nat) (z : Z) :
  Forall (fun c => c <> "/"%char) (pad_num w z).
Proof.
  unfold pad_num. apply Forall_app_2; [|apply number_to_string_no_slash].
  apply List.Forall_forall. intros c Hc. apply repeat_spec in Hc as ->.
  discriminate.
Qed.

Ltac no_slash_chars :=
  repeat first
    [ apply pad_num_no_slash
    | apply number_to_string_no_slash
    | apply Forall_app_2
    | apply Forall_nil_2
    | apply Forall_cons_2; [discriminate|] ].

Lemma toISOString_no_slash (t : Z) : Forall (fun c => c <> "/"%char) (toISOString t).
Proof.
  unfold toISOString. destruct (days_to_civil _) as [[y m] d].
  destruct (_ && _)%Z; [|destruct (y <? 0)%Z]; no_slash_chars.
Qed.

Lemma log_filename_no_slash (t : Z) : Forall (fun c => c <> "/"%char) (log_filename t).
Proof.
  unfold log_filename. apply Forall_app_2; [cbn; no_slash_chars|].
  apply Forall_app_2; [|cbn; no_slash_chars].
  unfold replace_colons. apply Forall_fmap. eapply Forall_impl; [apply toISOString_no_slash|].
  intros c Hc. cbn. destruct (Ascii.eqb c ":"%char); [discriminate|done].
Qed.

Lemma split_slash_no_slash (s : jstr) :
  Forall (fun c => c <> "/"%char) s -> split_slash s = [s].
Proof.
  induction s as [|c s IH]; intros Hs; [done|].
  inversion Hs as [|? ? Hc Hs']; subst. cbn [split_slash]. rewrite IH by done.
  destruct (Ascii.eqb_spec c "/"%char); [done|]. reflexivity.
Qed.

Lemma log_filename_shape (t : Z) :
  exists r, log_filename t = "w"%char :: r ++ ["n"%char].
Proof.
  exists (lit "ebhook-" ++ replace_colons (toISOString t) ++ lit ".jso").
  unfold log_filename. cbn. rewrite <- !app_assoc. reflexivity.
Qed.

(** The file of a save lies directly in the logs directory. *)
Lemma path_join_log_filename (base : list jstr) (t : Z) :
  path_join base (log_filename t) =
  {| fp_segs := base ++ [log_filename t]; fp_trail := false |}.
Proof.
  unfold path_join. rewrite split_slash_no_slash by apply log_filename_no_slash.
  destruct (log_filename_shape t) as [r Hr].
  cbn [foldl]. unfold norm_step, ends_with_slash. rewrite Hr.
  rewrite !bool_decide_false by (destruct r; discriminate).
  rewrite app_comm_cons, last_snoc. reflexivity.
Qed.

Lemma log_filename_not_dots (t : Z) :
  log_filename t <> lit "." /\ log_filename t <> lit ".." /\ log_filename t <> [].
Proof.
  destruct (log_filename_shape t) as [r ->]. split_and!; discriminate.
Qed.

(* ------------------------------------------------------------------ *)
(** ** jsonb *)

Lemma Forall2_map_l_self {A} (R : A -> A -> Prop) (f : A -> A) (l : list A) :
  Forall (fun x => R (f x) x) l -> Forall2 R (map f l) l.
Proof. induction 1; constructor; auto. Qed.

Lemma json_equiv_norm (v : json) : json_equiv (jsonb_norm v) v.
Proof.
  induction v as [| b | z | s | l IH | kvs IH] using json_ind'; cbn [jsonb_norm];
    try constructor.
  - apply Forall2_map_l_self. exact IH.
  - eapply je_obj; [apply merge_sort_Permutation|].
    apply (Forall2_map_l_self (fun a b => a.1 = b.1 /\ json_equiv a.2 b.2)
             (fun kv => (kv.1, jsonb_norm kv.2))).
    eapply Forall_impl; [exact IH|]. intros kv Hkv. split; [done|exact Hkv].
Qed.


Lemma jsonb_in_stringify_inv (v w : json) :
  valid_json v = true -> jsonb_in (json_stringify v) = inl w ->
  w = jsonb_norm v /\ has_nul v = false.
Proof.
  intros Hv. unfold jsonb_in. rewrite json_parse_stringify0 by done.
  destruct (has_nul v); [discriminate|]. intros [= <-]. done.
Qed.

Lemma decode_col_norm (v : json) :
  is_structured v = true -> decode_col (jsonb_norm v) = Some (jsonb_norm v).
Proof. destruct v; done. Qed.

(* ------------------------------------------------------------------ *)
(** ** Effect of a save *)

Lemma save_file_inl (c : config) (st st' : state) (env : post_env) (fname : jstr)
    (logData : json) (req : request) :
  use_db c = false -> save c st env fname logData req = inl st' ->
  files st !! removelast (fp_segs (path_join (logsDir c) fname)) = Some EDir /\
  fp_trail (path_join (logsDir c) fname) = false /\
  files st' = <[fp_segs (path_join (logsDir c) fname) := EFile (json_stringify2 logData)]>
                (files st) /\
  webhook_logs st' = webhook_logs st /\ next_id st' = next_id st.
Proof.
  intros Hc. unfold save. rewrite Hc. unfold writeFileSync.
  destruct (files st !! _) as [[|]|] eqn:E1;
    [destruct (fp_trail _) eqn:Et| |destruct (fp_trail _) eqn:Et]; try discriminate;
    destruct (files st !! removelast _) as [[|]|] eqn:E2; try discriminate;
    destruct (fault env) as [[| |]|]; try discriminate;
    intros [= <-]; cbn; done.
Qed.

Lemma save_file_inr (c : config) (st st' : state) (env : post_env) (fname : jstr)
    (logData : json) (req : request) (msg : jstr) :
  use_db c = false -> save c st env fname logData req = inr (st', msg) ->
  webhook_logs st' = webhook_logs st /\
  (files st' = files st \/
   exists n, files st' = <[fp_segs (path_join (logsDir c) fname) :=
                             EFile (take n (json_stringify2 logData))]> (files st)).
Proof.
  intros Hc. unfold save. rewrite Hc. unfold writeFileSync.
  destruct (files st !! _) as [[|]|] eqn:E1;
    [destruct (fp_trail _) eqn:Et| |destruct (fp_trail _) eqn:Et]; try discriminate;
    try (intros [= <- _]; cbn; auto; fail);
    destruct (files st !! removelast _) as [[|]|] eqn:E2;
    try (intros [= <- _]; cbn; auto; fail);
    destruct (fault env) as [[| |]|]; try discriminate;
    intros [= <- _]; cbn; eauto.
Qed.

Lemma save_db_inl (c : config) (st st' : state) (env : post_env) (fname : jstr)
    (logData : json) (req : request) :
  use_db c = true -> save c st env fname logData req = inl st' ->
  exists hv bv qv,
    jsonb_in (json_stringify (req_headers req)) = inl hv /\
    jsonb_in (json_stringify (req_body req)) = inl bv /\
    jsonb_in (json_stringify (req_query req)) = inl qv /\
    files st' = files st /\ next_id st' = (next_id st + 1)%Z /\
    webhook_logs st' = webhook_logs st ++
      [{| id := next_id st; timestamp := db_now env; filename := fname;
          headers := hv; body := bv; query := qv; created_at := db_now env |}].
Proof.
  intros Hc. unfold save. rewrite Hc.
  destruct (fault env) as [[| |]|]; try discriminate;
    unfold db_insert;
    destruct (jsonb_in (json_stringify (req_headers req))) as [hv|];
    destruct (jsonb_in (json_stringify (req_body req))) as [bv|];
    destruct (jsonb_in (json_stringify (req_query req))) as [qv|]; try discriminate;
    intros [= <-]; exists hv, bv, qv; cbn; done.
Qed.

Lemma save_db_inr (c : config) (st st' : state) (env : post_env) (fname : jstr)
    (logData : json) (req : request) (msg : jstr) :
  use_db c = true -> save c st env fname logData req = inr (st', msg) -> st' = st.
Proof.
  intros Hc. unfold save. rewrite Hc.
  destruct (fault env) as [[| |]|]; try (intros [= <- _]; done);
    unfold db_insert;
    destruct (jsonb_in (json_stringify (req_headers req))) as [hv|];
    destruct (jsonb_in (json_stringify (req_body req))) as [bv|];
    destruct (jsonb_in (json_stringify (req_query req))) as [qv|];
    first [discriminate | intros [= <- _]; done].
Qed.

(** A [POST /webhook] answers 200 exactly when the save went through. *)
Lemma post_webhook_cases (c : config) (st st' : state) (env : post_env) (req : request)
    (r : response) :
  post_webhook c st env req = (st', r) ->
  let fname := log_filename (clock1 env) in
  let logData := log_data (toISOString (clock2 env)) req in
  (save c st env fname logData req = inl st' /\
   r = RJson 200 (JObj [(lit "status", JStr (lit "success"));
                        (lit "message", JStr (lit "Webhook received and logged"));
                        (lit "timestamp", JStr (toISOString (clock2 env)));
                        (lit "storage", JStr (if use_db c then lit "database" else lit "file"))]))
  \/ (exists msg, save c st env fname logData req = inr (st', msg) /\
      r = RJson 500 (JObj [(lit "status", JStr (lit "error"));
                           (lit "message", JStr (lit "Failed to save webhook"));
                           (lit "error", JStr msg)])).
Proof.
  unfold post_webhook. cbv zeta. intros H.
  destruct (save c st env _ _ req) as [s|[s msg]]; injection H as <- <-; eauto.
Qed.

Lemma post_webhook_200 (c : config) (st st' : state) (env : post_env) (req : request)
    (r : response) :
  post_webhook c st env req = (st', r) -> status_of r = 200 ->
  save c st env (log_filename (clock1 env)) (log_data (toISOString (clock2 env)) req) req
  = inl st'.
Proof.
  intros H Hs. destruct (post_webhook_cases _ _ _ _ _ _ H) as [[? _]|(msg & _ & ->)];
    [done|discriminate].
Qed.

(* ------------------------------------------------------------------ *)
(** ** Reading a log back *)

Lemma json_equiv_refl (v : json) : json_equiv v v.
Proof.
  induction v as [| b | z | s | l IH | kvs IH] using json_ind'; try constructor.
  - induction IH; constructor; auto.
  - eapply je_obj; [reflexivity|]. induction IH; constructor; auto.
Qed.

(** [GET /logs/:filename] on a regular file of the file backend. *)
Lemma read_log_file_regular (c : config) (st : state) (name content : jstr) :
  files st !! fp_segs (path_join (logsDir c) name) = Some (EFile content) ->
  fp_trail (path_join (logsDir c) name) = false ->
  read_log_file c st name =
  match json_parse content with
  | None => RError (lit "Error reading log: ") ErrSyntax
  | Some JNull =>
      RError (lit "Error reading log: ")
             (ErrType (lit "Cannot read properties of null (reading 'headers')"))
  | Some logData =>
      RLogPage name (get_prop logData (lit "headers")) (get_prop logData (lit "body"))
               (get_prop logData (lit "query")) (storage_label c)
  end.
Proof.
  intros Hf Ht. unfold read_log_file, pathExists, fs_stat, readFile.
  rewrite Hf, Ht. cbn [negb]. reflexivity.
Qed.

Lemma valid_log_data (ts : jstr) (req : request) :
  valid_request req = true -> valid_json (log_data ts req) = true.
Proof.
  unfold valid_request. intros H. repeat (apply andb_prop in H as [H ?]).
  cbn [log_data valid_json forallb snd map fst]. rewrite H, H4, H3. reflexivity.
Qed.

Lemma get_prop_log_data (ts : jstr) (req : request) :
  get_prop (log_data ts req) (lit "headers") = Some (req_headers req) /\
  get_prop (log_data ts req) (lit "body") = Some (req_body req) /\
  get_prop (log_data ts req) (lit "query") = Some (req_query req).
Proof. split_and!; reflexivity. Qed.

Lemma filter_filename_none (rs : list row) (name : jstr) :
  Forall (fun rw => filename rw <> name) rs ->
  List.filter (fun r => bool_decide (filename r = name)) rs = [].
Proof.
  induction 1 as [|rw rs Hrw _ IH]; [done|]. cbn. rewrite bool_decide_false by done. done.
Qed.

Lemma save_get_db (c : config) (st st' : state) (env : post_env) (req : request)
    (fname : jstr) (logData : json) (out : list row) :
  valid_request req = true -> use_db c = true ->
  save c st env fname logData req = inl st' ->
  Forall (fun rw => filename rw <> fname) (webhook_logs st) ->
  select_by_filename (webhook_logs st') fname out ->
  get_log c st' fname (inr out) =
    RLogPage fname (Some (jsonb_norm (req_headers req)))
      (Some (jsonb_norm (req_body req))) (Some (jsonb_norm (req_query req))) (storage_label c).
Proof.
  intros Hreq Hc Hsave Hfresh Hsel.
  pose proof Hreq as Hreq'. unfold valid_request in Hreq'.
  repeat (apply andb_prop in Hreq' as [Hreq' ?]).
  destruct (save_db_inl _ _ _ _ _ _ _ Hc Hsave)
    as (hv & bv & qv & Hh & Hb & Hq & _ & _ & Hrows).
  apply jsonb_in_stringify_inv in Hh as [-> _], Hb as [-> _], Hq as [-> _]; try done.
  unfold select_by_filename in Hsel. rewrite Hrows, List.filter_app in Hsel.
  rewrite filter_filename_none in Hsel by exact Hfresh.
  cbn [List.filter filename app] in Hsel. rewrite bool_decide_true in Hsel by reflexivity.
  apply Permutation_singleton_l in Hsel. subst out.
  unfold get_log. rewrite Hc. cbn [headers body query].
  rewrite !decode_col_norm by assumption.
  reflexivity.
Qed.

Lemma save_get_file (c : config) (st st' : state) (env : post_env) (req : request)
    (fname ts : jstr) :
  valid_request req = true -> use_db c = false ->
  save c st env fname (log_data ts req) req = inl st' ->
  read_log_file c st' fname =
    RLogPage fname (Some (req_headers req)) (Some (req_body req))
             (Some (req_query req)) (storage_label c).
Proof.
  intros Hreq Hc Hsave.
  destruct (save_file_inl _ _ _ _ _ _ _ Hc Hsave) as (_ & Ht & Hfiles & _).
  rewrite (read_log_file_regular c st' _ (json_stringify2 (log_data ts req)));
    [| rewrite Hfiles; apply lookup_insert_eq | done].
  rewrite json_parse_stringify2 by (apply valid_log_data; done).
  reflexivity.
Qed.

(* ------------------------------------------------------------------ *)
(** ** C1: save followed by get *)

(** C1 (amended): after a successful [POST /webhook] with a valid payload,
    [GET /logs/<its file name>] shows headers, body and query structurally
    equal to the payload's: in the file backend they are the payload's
    values themselves; in the database backend this holds when no earlier
    row carries the same file name (the table does not keep file names
    unique, and [rows[0]] may then be an older row). *)
Theorem save_then_get (c : config) (st st' : state) (env : post_env) (req : request)
    (r : response) (out : list row) :
  valid_request req = true ->
  post_webhook c st env req = (st', r) ->
  status_of r = 200 ->
  (use_db c = true ->
   Forall (fun rw => filename rw <> log_filename (clock1 env)) (webhook_logs st)) ->
  select_by_filename (webhook_logs st') (log_filename (clock1 env)) out ->
  exists h b q,
    get_log c st' (log_filename (clock1 env)) (inr out) =
      RLogPage (log_filename (clock1 env)) (Some h) (Some b) (Some q) (storage_label c) /\
    json_equiv h (req_headers req) /\ json_equiv b (req_body req) /\
    json_equiv q (req_query req) /\
    (use_db c = false -> h = req_headers req /\ b = req_body req /\ q = req_query req).
Proof.
  intros Hreq Hpost H200 Hfresh Hsel.
  pose proof (post_webhook_200 _ _ _ _ _ _ Hpost H200) as Hsave.
  destruct (use_db c) eqn:Hc.
  - rewrite (save_get_db c st st' env req _ _ out Hreq Hc Hsave (Hfresh eq_refl) Hsel).
    eexists _, _, _. split_and!; [reflexivity | apply json_equiv_norm .. | discriminate].
  - unfold get_log. rewrite Hc.
    rewrite (save_get_file c st st' env req _ _ Hreq Hc Hsave).
    eexists _, _, _. split_and!; [reflexivity | apply json_equiv_refl .. | done].
Qed.

Lemma save_then_get_witness :
  valid_request (req_a 1) = true /\
  status_of (post_webhook cfg_dev st_dev (env_at t0) (req_a 1)).2 = 200 /\
  exists h b q,
    get_log cfg_dev (post_webhook cfg_dev st_dev (env_at t0) (req_a 1)).1
      (log_filename t0) (inr []) =
      RLogPage (log_filename t0) (Some h) (Some b) (Some q) (storage_label cfg_dev) /\
    json_equiv h (req_headers (req_a 1)) /\ json_equiv b (req_body (req_a 1)) /\
    json_equiv q (req_query (req_a 1)) /\
    (use_db cfg_dev = false ->
     h = req_headers (req_a 1) /\ b = req_body (req_a 1) /\ q = req_query (req_a 1)).
Proof.
  split; [reflexivity|]. split; [vm_compute; reflexivity|].
  apply (save_then_get cfg_dev st_dev (post_webhook cfg_dev st_dev (env_at t0) (req_a 1)).1
           (env_at t0) (req_a 1) (post_webhook cfg_dev st_dev (env_at t0) (req_a 1)).2 []).
  - reflexivity.
  - apply surjective_pairing.
  - vm_compute. reflexivity.
  - discriminate.
  - vm_compute. apply Permutation_refl.
Defined.

(** Two payloads received in the same millisecond by the database backend:
    both saves answer 200, and [GET] on the shared file name may show the
    first payload's body after the second save. *)
Lemma save_then_get_collision :
  let '(st1, r1) := post_webhook cfg_db st_checkout (env_at t0) (req_a 1) in
  let '(st2, r2) := post_webhook cfg_db st1 (env_at t0) (req_a 2) in
  status_of r1 = 200 /\ status_of r2 = 200 /\
  select_by_filename (webhook_logs st2) (log_filename t0) (webhook_logs st2) /\
  get_log cfg_db st2 (log_filename t0) (inr (webhook_logs st2)) =
    RLogPage (log_filename t0) (Some (req_headers (req_a 1))) (Some (JObj [(lit "a", JNum 1)]))
             (Some (JObj [])) (storage_label cfg_db) /\
  ~ json_equiv (JObj [(lit "a", JNum 1)]) (req_body (req_a 2)).
Proof.
  vm_compute. split_and!; try reflexivity.
  intros Heq. inversion Heq as [| | | | |kvs1 kvs1' kvs2 Hp Hf]; subst.
  apply Permutation_singleton_l in Hp. subst kvs1'.
  inversion Hf as [|? ? ? ? [_ Hv] _]; subst. inversion Hv.
Qed.

(* ------------------------------------------------------------------ *)
(** ** Listing *)

Lemma str_leb_total (a b : jstr) : str_leb a b = true \/ str_leb b a = true.
Proof.
  revert b. induction a as [|x a IH]; intros [|y b]; cbn [str_leb]; auto.
  destruct (Nat.ltb_spec (nat_of_ascii x) (nat_of_ascii y)); [auto|].
  destruct (Nat.ltb_spec (nat_of_ascii y) (nat_of_ascii x)); [auto|].
  rewrite (proj2 (Nat.eqb_eq (nat_of_ascii x) (nat_of_ascii y))) by lia.
  rewrite (proj2 (Nat.eqb_eq (nat_of_ascii y) (nat_of_ascii x))) by lia.
  cbn [orb andb]. apply IH.
Qed.

#[global] Instance str_le_total : Total str_le.
Proof. intros a b. apply str_leb_total. Qed.

(** [.sort().reverse()] orders descending and keeps the elements. *)
Lemma sort_reverse_spec (l : list jstr) :
  Sorted (fun a b => str_le b a) (sort_reverse l) /\ sort_reverse l ≡ₚ l.
Proof.
  unfold sort_reverse. split.
  - apply (Sorted_reverse str_le). apply Sorted_merge_sort. apply _.
  - rewrite reverse_Permutation. apply merge_sort_Permutation.
Qed.

Lemma child_name_Some (d k : list jstr) (x : jstr) :
  child_name d k = Some x <-> k = d ++ [x].
Proof.
  unfold child_name. split.
  - case_bool_decide as H; [|discriminate]. destruct H as [Hl Ht].
    rewrite <- (take_drop (length d) k). rewrite Ht.
    assert (length (drop (length d) k) = 1) as H1 by (rewrite length_drop; lia).
    destruct (drop (length d) k) as [|y [|]]; try discriminate.
    rewrite last_snoc. intros [= ->]. done.
  - intros ->. rewrite bool_decide_true.
    + apply last_snoc.
    + rewrite length_app, take_app_length. cbn. split; [lia|done].
Qed.

Lemma elem_of_readdir (fs : fsys) (d : list jstr) (x : jstr) :
  x ∈ omap (child_name d) (map fst (map_to_list fs)) <-> is_Some (fs !! (d ++ [x])).
Proof.
  rewrite list_elem_of_omap. split.
  - intros (k & Hk & Hc). apply child_name_Some in Hc as ->.
    apply list_elem_of_fmap in Hk as ([k' e] & -> & Hk).
    apply elem_of_map_to_list in Hk. cbn. eauto.
  - intros [e He]. exists (d ++ [x]). split; [|by apply child_name_Some].
    apply list_elem_of_fmap. exists (d ++ [x], e). split; [done|].
    by apply elem_of_map_to_list.
Qed.

Lemma NoDup_readdir (fs : fsys) (d : list jstr) :
  NoDup (omap (child_name d) (map fst (map_to_list fs))).
Proof.
  assert (Hnd : NoDup (map fst (map_to_list fs))) by exact (NoDup_fst_map_to_list fs).
  induction (map fst (map_to_list fs)) as [|k l IH]; [constructor|].
  inversion Hnd as [|? ? Hk Hl]; subst. cbn.
  destruct (child_name d k) as [x|] eqn:Ek; [|auto].
  constructor; [|auto]. intros Hx. apply list_elem_of_omap in Hx as (k' & Hk' & Ek').
  apply child_name_Some in Ek, Ek'. subst. done.
Qed.

Lemma endsWith_log_filename (t : Z) : endsWith (log_filename t) (lit ".json") = true.
Proof.
  unfold endsWith, log_filename. rewrite app_assoc.
  set (pre := lit "webhook-" ++ replace_colons (toISOString t)).
  rewrite length_app. cbn [length lit list_ascii_of_string].
  replace (length pre + 5 - 5) with (length pre) by lia.
  rewrite drop_app_length, bool_decide_true by done.
  apply andb_true_intro. split; [apply Nat.leb_le; lia|done].
Qed.

(** The file-backend listing is computed from the directory entries. *)
Lemma get_logs_file (c : config) (st : state) (qres : jstr + list row) :
  use_db c = false -> files st !! logsDir c = Some EDir ->
  exists names,
    get_logs c st qres = logs_page c names /\
    NoDup names /\ Sorted (fun a b => str_le b a) names /\
    (forall x, x ∈ names <-> is_Some (files st !! (logsDir c ++ [x])) /\
                             endsWith x (lit ".json") = true).
Proof.
  intros Hc Hd. unfold get_logs, readdir. rewrite Hc. cbn [logsDir_path fp_segs].
  rewrite Hd.
  set (l := List.filter _ _).
  destruct (sort_reverse_spec l) as [Hs Hp].
  exists (sort_reverse l). split_and!; [done| | done |].
  - rewrite Hp. unfold l. apply NoDup_ListNoDup, List.NoDup_filter, NoDup_ListNoDup, NoDup_readdir.
  - intros x. rewrite Hp. unfold l. rewrite list_elem_of_In, filter_In, <- list_elem_of_In.
    rewrite elem_of_readdir. tauto.
Qed.

Lemma run_posts_db (c : config) (st stN : state) (ps : list (post_env * request))
    (rs : list response) :
  use_db c = true -> run_posts c st ps = (stN, rs) ->
  Forall (fun r => status_of r = 200) rs ->
  exists new, webhook_logs stN = webhook_logs st ++ new /\
              map filename new = map (fun p => log_filename (clock1 p.1)) ps.
Proof.
  intros Hc. revert st stN rs.
  induction ps as [|[env req] ps IH]; intros st stN rs Hrun Hall.
  - injection Hrun as <- <-. exists []. rewrite app_nil_r. done.
  - cbn [run_posts] in Hrun.
    destruct (post_webhook c st env req) as [st1 r] eqn:Ep.
    destruct (run_posts c st1 ps) as [stN' rs'] eqn:Er.
    injection Hrun as <- <-. inversion Hall as [|? ? H200 Hall']; subst.
    pose proof (post_webhook_200 _ _ _ _ _ _ Ep H200) as Hsave.
    destruct (save_db_inl _ _ _ _ _ _ _ Hc Hsave) as (hv & bv & qv & _ & _ & _ & _ & _ & Hrows).
    destruct (IH st1 stN' rs' Er Hall') as (new & Hnew & Hmap).
    eexists. split.
    + rewrite Hnew, Hrows, <- app_assoc. reflexivity.
    + cbn. f_equal. exact Hmap.
Qed.

Lemma lookup_insert_child (m : fsys) (d : list jstr) (f x : jstr) (e : entry) :
  is_Some (<[d ++ [f] := e]> m !! (d ++ [x])) <-> x = f \/ is_Some (m !! (d ++ [x])).
Proof.
  destruct (decide (x = f)) as [->|Hne].
  - rewrite lookup_insert_eq. split; eauto.
  - rewrite lookup_insert_ne; [tauto|]. intros Heq. apply app_inj_tail in Heq as [_ ?].
    congruence.
Qed.

Lemma run_posts_file (c : config) (st stN : state) (ps : list (post_env * request))
    (rs : list response) :
  use_db c = false -> run_posts c st ps = (stN, rs) ->
  Forall (fun r => status_of r = 200) rs ->
  files st !! logsDir c = Some EDir ->
  files stN !! logsDir c = Some EDir /\
  forall x, is_Some (files stN !! (logsDir c ++ [x])) <->
            is_Some (files st !! (logsDir c ++ [x])) \/
            x ∈ map (fun p => log_filename (clock1 p.1)) ps.
Proof.
  intros Hc. revert st stN rs.
  induction ps as [|[env req] ps IH]; intros st stN rs Hrun Hall Hd.
  - injection Hrun as <- <-. split; [done|]. intros x. cbn. set_solver.
  - cbn [run_posts] in Hrun.
    destruct (post_webhook c st env req) as [st1 r] eqn:Ep.
    destruct (run_posts c st1 ps) as [stN' rs'] eqn:Er.
    injection Hrun as <- <-. inversion Hall as [|? ? H200 Hall']; subst.
    pose proof (post_webhook_200 _ _ _ _ _ _ Ep H200) as Hsave.
    destruct (save_file_inl _ _ _ _ _ _ _ Hc Hsave) as (_ & _ & Hfiles & _).
    rewrite path_join_log_filename in Hfiles. cbn [fp_segs] in Hfiles.
    assert (Hd1 : files st1 !! logsDir c = Some EDir).
    { rewrite Hfiles, lookup_insert_ne; [done|].
      intros Heq. apply (f_equal length) in Heq. rewrite length_app in Heq. cbn in Heq. lia. }
    destruct (IH st1 stN' rs' Er Hall' Hd1) as [HdN Hx].
    split; [done|]. intros x. rewrite Hx, Hfiles, lookup_insert_child. cbn [map fst].
    rewrite elem_of_cons. tauto.
Qed.

(** C2 (amended): after N successful saves, [GET /logs] lists
    - in the database backend (table empty at first): exactly N file names,
      one per row, ordered by the rows' [created_at] descending;
    - in the file backend (logs directory holding no [.json] entry at
      first): the distinct file names of the saves, each once, in
      descending lexicographic order (fewer than N when two saves fell in
      the same millisecond). *)
Theorem list_after_saves (c : config) (st0 stN : state) (ps : list (post_env * request))
    (rs : list response) :
  run_posts c st0 ps = (stN, rs) ->
  Forall (fun r => status_of r = 200) rs ->
  (use_db c = true -> webhook_logs st0 = [] ->
   forall out, select_by_created_desc (webhook_logs stN) out ->
     get_logs c stN (inr out) = logs_page c (map filename out) /\
     map filename out ≡ₚ map (fun p => log_filename (clock1 p.1)) ps /\
     length (map filename out) = length ps /\
     Sorted (fun a b => (created_at b <= created_at a)%Z) out) /\
  (use_db c = false -> files st0 !! logsDir c = Some EDir ->
   (forall x, is_Some (files st0 !! (logsDir c ++ [x])) -> endsWith x (lit ".json") = false) ->
   forall qres, exists names,
     get_logs c stN qres = logs_page c names /\
     NoDup names /\ Sorted (fun a b => str_le b a) names /\
     (forall x, x ∈ names <-> x ∈ map (fun p => log_filename (clock1 p.1)) ps)).
Proof.
  intros Hrun Hall. split.
  - intros Hc H0 out [Hperm Hsorted].
    destruct (run_posts_db _ _ _ _ _ Hc Hrun Hall) as (new & Hnew & Hmap).
    rewrite H0 in Hnew. cbn in Hnew.
    assert (Hp : map filename out ≡ₚ map (fun p => log_filename (clock1 p.1)) ps).
    { rewrite <- Hmap, <- Hnew. symmetry. apply Permutation_map. exact Hperm. }
    split_and!; [| exact Hp | | exact Hsorted].
    + unfold get_logs. rewrite Hc. reflexivity.
    + rewrite (Permutation_length Hp), length_map. reflexivity.
  - intros Hc Hd Hnojson qres.
    destruct (run_posts_file _ _ _ _ _ Hc Hrun Hall Hd) as [HdN Hx].
    destruct (get_logs_file c stN qres Hc HdN) as (names & Hget & Hnd & Hs & Hmem).
    exists names. split_and!; try done.
    intros x. rewrite Hmem, Hx. split.
    + intros [[Hold|Hnew] Hj]; [|done]. apply Hnojson in Hold. congruence.
    + intros Hin. split; [by right|].
      apply list_elem_of_fmap in Hin as (p & -> & _). apply endsWith_log_filename.
Qed.

Lemma st_dev_files :
  files st_dev = <[app_src ++ [lit "logs"] := EDir]> fs_checkout.
Proof.
  assert (H1 : fs_checkout !! [lit "app"] = Some EDir) by (vm_compute; reflexivity).
  assert (H2 : fs_checkout !! app_src = Some EDir) by (vm_compute; reflexivity).
  assert (H3 : fs_checkout !! (app_src ++ [lit "logs"]) = None) by (vm_compute; reflexivity).
  unfold st_dev, startup, ensureDirSync.
  change (isProduction cfg_dev) with false. change (logsDir cfg_dev) with (app_src ++ [lit "logs"]).
  change (files st_checkout) with fs_checkout.
  change (app_src ++ [lit "logs"]) with [lit "app"; lit "src"; lit "logs"] in *.
  cbn [ensure_dir_aux app]. rewrite H1. cbn [ensure_dir_aux app].
  change [lit "app"; lit "src"] with app_src in *. rewrite H2. cbn [ensure_dir_aux app].
  rewrite H3. reflexivity.
Qed.

Ltac key_length_ne :=
  let Heq := fresh in
  intros Heq; apply (f_equal length) in Heq; rewrite ?length_app in Heq; cbn in Heq; lia.

(** The logs directory of [st_dev] is empty. *)
Lemma st_dev_logs_empty (x : jstr) : files st_dev !! (logsDir cfg_dev ++ [x]) = None.
Proof.
  rewrite st_dev_files. unfold fs_checkout.
  repeat (rewrite lookup_insert_ne; [|key_length_ne]). apply lookup_empty.
Qed.

Lemma list_after_saves_witness :
  Forall (fun r => status_of r = 200)
    (run_posts cfg_dev st_dev [(env_at t0, req_a 1); (env_at (t0 + 1), req_a 2)]).2 /\
  exists names,
    get_logs cfg_dev (run_posts cfg_dev st_dev
                        [(env_at t0, req_a 1); (env_at (t0 + 1), req_a 2)]).1 (inr []) =
      logs_page cfg_dev names /\
    NoDup names /\ Sorted (fun a b => str_le b a) names /\
    (forall x, x ∈ names <->
       x ∈ map (fun p => log_filename (clock1 p.1))
             [(env_at t0, req_a 1); (env_at (t0 + 1), req_a 2)]).
Proof.
  assert (Hall : Forall (fun r => status_of r = 200)
    (run_posts cfg_dev st_dev [(env_at t0, req_a 1); (env_at (t0 + 1), req_a 2)]).2)
    by (vm_compute; repeat constructor).
  split; [exact Hall|].
  destruct (list_after_saves cfg_dev st_dev
              (run_posts cfg_dev st_dev [(env_at t0, req_a 1); (env_at (t0 + 1), req_a 2)]).1
              [(env_at t0, req_a 1); (env_at (t0 + 1), req_a 2)]
              (run_posts cfg_dev st_dev [(env_at t0, req_a 1); (env_at (t0 + 1), req_a 2)]).2
              (surjective_pairing _) Hall) as [_ Hfile].
  apply Hfile.
  - reflexivity.
  - vm_compute. reflexivity.
  - intros x [e He]. rewrite st_dev_logs_empty in He. discriminate.
Defined.

(** Two saves in the same millisecond leave one entry in the file backend;
    in the database backend, two requests whose INSERTs reach the database
    in the other order than their clock readings (concurrent requests) are
    listed in ascending order of file name. *)
Lemma list_after_saves_fails :
  (let '(st2, rs) := run_posts cfg_dev st_dev [(env_at t0, req_a 1); (env_at t0, req_a 2)] in
   Forall (fun r => status_of r = 200) rs /\ length rs = 2 /\
   forall qres, get_logs cfg_dev st2 qres = RLogList [log_filename t0] (storage_label cfg_dev)) /\
  (let '(st2, rs) :=
     run_posts cfg_db st_checkout
       [({| clock1 := t0; clock2 := t0; db_now := t0 + 10; fault := None |}, req_a 1);
        ({| clock1 := t0 + 1; clock2 := t0 + 1; db_now := t0 + 5; fault := None |}, req_a 2)] in
   Forall (fun r => status_of r = 200) rs /\
   forall out, select_by_created_desc (webhook_logs st2) out ->
     get_logs cfg_db st2 (inr out) =
       RLogList [log_filename t0; log_filename (t0 + 1)] (storage_label cfg_db) /\
     str_le (log_filename t0) (log_filename (t0 + 1)) /\
     log_filename t0 <> log_filename (t0 + 1)).
Proof.
  split.
  - vm_compute. split_and!; [repeat constructor; reflexivity | reflexivity | reflexivity].
  - vm_compute. split; [repeat constructor; reflexivity|].
    intros out [Hp Hs]. apply Permutation_length_2_inv in Hp as [->| ->].
    + split_and!; [reflexivity | reflexivity | discriminate].
    + apply Sorted_inv in Hs as [_ Hhd]. apply HdRel_inv in Hhd.
      vm_compute in Hhd. exfalso. apply Hhd. reflexivity.
Qed.

(* ------------------------------------------------------------------ *)
(** ** What a save leaves unchanged *)

Lemma post_webhook_db_frame (c : config) (st st' : state) (env : post_env) (req : request)
    (r : response) :
  use_db c = true -> post_webhook c st env req = (st', r) ->
  files st' = files st /\
  exists new, webhook_logs st' = webhook_logs st ++ new /\
              Forall (fun rw => filename rw = log_filename (clock1 env)) new.
Proof.
  intros Hc Hpost.
  destruct (post_webhook_cases _ _ _ _ _ _ Hpost) as [[Hsave _]|(msg & Hsave & _)];
    revert Hsave; generalize (log_filename (clock1 env)); intros fname Hsave.
  - destruct (save_db_inl _ _ _ _ _ _ _ Hc Hsave) as (hv & bv & qv & _ & _ & _ & Hf & _ & Hrows).
    split; [done|]. eexists. split; [exact Hrows|]. repeat constructor.
  - apply save_db_inr in Hsave as ->; [|done]. split; [done|].
    exists []. rewrite app_nil_r. split; [done|constructor].
Qed.

Lemma post_webhook_file_frame (c : config) (st st' : state) (env : post_env) (req : request)
    (r : response) :
  use_db c = false -> post_webhook c st env req = (st', r) ->
  webhook_logs st' = webhook_logs st /\
  forall p, p <> logsDir c ++ [log_filename (clock1 env)] -> files st' !! p = files st !! p.
Proof.
  intros Hc Hpost.
  destruct (post_webhook_cases _ _ _ _ _ _ Hpost) as [[Hsave _]|(msg & Hsave & _)].
  - destruct (save_file_inl _ _ _ _ _ _ _ Hc Hsave) as (_ & _ & Hfiles & Hrows & _).
    rewrite path_join_log_filename in Hfiles. cbn [fp_segs] in Hfiles.
    split; [done|]. intros p Hp. rewrite Hfiles, lookup_insert_ne; [done|congruence].
  - destruct (save_file_inr _ _ _ _ _ _ _ _ Hc Hsave) as (Hrows & [Hfiles|(n & Hfiles)]);
      split; try done; intros p Hp; [rewrite Hfiles; done|].
    rewrite path_join_log_filename in Hfiles. cbn [fp_segs] in Hfiles.
    rewrite Hfiles, lookup_insert_ne; [done|congruence].
Qed.

Lemma run_posts_rows (c : config) (st0 stN : state) (ps : list (post_env * request))
    (rs : list response) :
  use_db c = true -> run_posts c st0 ps = (stN, rs) ->
  forall rw, rw ∈ webhook_logs stN ->
    rw ∈ webhook_logs st0 \/ filename rw ∈ map (fun p => log_filename (clock1 p.1)) ps.
Proof.
  intros Hc. revert st0 stN rs.
  induction ps as [|[env req] ps IH]; intros st0 stN rs Hrun rw Hin.
  - injection Hrun as <- <-. auto.
  - cbn [run_posts] in Hrun.
    destruct (post_webhook c st0 env req) as [st1 r] eqn:Ep.
    destruct (run_posts c st1 ps) as [stN' rs'] eqn:Er.
    injection Hrun as <- <-.
    destruct (post_webhook_db_frame _ _ _ _ _ _ Hc Ep) as (_ & new & Hrows & Hnew).
    cbn [map fst]. rewrite elem_of_cons.
    destruct (IH _ _ _ Er rw Hin) as [H1|H1]; [|auto].
    rewrite Hrows, elem_of_app in H1. destruct H1 as [H1|H1]; [auto|].
    right. left. rewrite Forall_forall in Hnew. apply Hnew, H1.
Qed.

Lemma run_posts_files (c : config) (st0 stN : state) (ps : list (post_env * request))
    (rs : list response) :
  use_db c = false -> run_posts c st0 ps = (stN, rs) ->
  forall p, (forall q, q ∈ ps -> p <> logsDir c ++ [log_filename (clock1 q.1)]) ->
  files stN !! p = files st0 !! p.
Proof.
  intros Hc. revert st0 stN rs.
  induction ps as [|[env req] ps IH]; intros st0 stN rs Hrun p Hp.
  - injection Hrun as <- <-. done.
  - cbn [run_posts] in Hrun.
    destruct (post_webhook c st0 env req) as [st1 r] eqn:Ep.
    destruct (run_posts c st1 ps) as [stN' rs'] eqn:Er.
    injection Hrun as <- <-.
    destruct (post_webhook_file_frame _ _ _ _ _ _ Hc Ep) as (_ & Hf).
    rewrite (IH _ _ _ Er p).
    + apply Hf, (Hp (env, req)). apply elem_of_cons. by left.
    + intros q Hq. apply Hp. apply elem_of_cons. by right.
Qed.

(** [GET /logs/:filename] in the file backend answers 404 exactly when
    nothing is at the joined path. *)
Lemma get_log_file_404 (c : config) (st : state) (name : jstr) (qres : jstr + list row) :
  use_db c = false ->
  get_log c st name qres = RText 404 (lit "Log not found") <->
  fs_stat (files st) (path_join (logsDir c) name) = None.
Proof.
  intros Hc. unfold get_log. rewrite Hc. unfold read_log_file, pathExists.
  destruct (fs_stat _ _) eqn:E; cbn [negb]; [|done].
  split; [|discriminate]. intros H. exfalso. revert H. repeat case_match; discriminate.
Qed.

(* ------------------------------------------------------------------ *)
(** ** C3: names never saved *)

(** C3 (amended): [GET /logs/:filename] on a name that no save produced
    answers 404 in the database backend (when no row had that name to begin
    with).  In the file backend it answers 404 exactly when nothing exists
    at [path.join(logsDir, name)]; after any sequence of saves this is the
    case when nothing was there at first and the joined path is not the
    path of one of the saves' files. *)
Theorem get_unsaved (c : config) (st0 stN : state) (ps : list (post_env * request))
    (rs : list response) (name : jstr) :
  run_posts c st0 ps = (stN, rs) ->
  (use_db c = true ->
   Forall (fun rw => filename rw <> name) (webhook_logs st0) ->
   name ∉ map (fun p => log_filename (clock1 p.1)) ps ->
   forall out, select_by_filename (webhook_logs stN) name out ->
     get_log c stN name (inr out) = RText 404 (lit "Log not found")) /\
  (use_db c = false ->
   (forall qres, get_log c stN name qres = RText 404 (lit "Log not found") <->
                 fs_stat (files stN) (path_join (logsDir c) name) = None) /\
   (fs_stat (files st0) (path_join (logsDir c) name) = None ->
    (forall q, q ∈ ps ->
       fp_segs (path_join (logsDir c) name) <> logsDir c ++ [log_filename (clock1 q.1)]) ->
    forall qres, get_log c stN name qres = RText 404 (lit "Log not found"))).
Proof.
  intros Hrun. split.
  - intros Hc H0 Hps out Hsel.
    unfold select_by_filename in Hsel. rewrite filter_filename_none in Hsel.
    + apply Permutation_nil in Hsel as ->. unfold get_log. rewrite Hc. reflexivity.
    + apply Forall_forall. intros rw Hin.
      destruct (run_posts_rows _ _ _ _ _ Hc Hrun rw Hin) as [H1|H1].
      * rewrite Forall_forall in H0. apply H0, H1.
      * intros <-. contradiction.
  - intros Hc. split; [intros qres; apply get_log_file_404, Hc|].
    intros H0 Hps qres. apply get_log_file_404; [exact Hc|].
    unfold fs_stat in *. rewrite (run_posts_files _ _ _ _ _ Hc Hrun); [exact H0|exact Hps].
Qed.

Lemma get_unsaved_witness :
  get_log cfg_dev (run_posts cfg_dev st_dev [(env_at t0, req_a 1)]).1 (lit "missing.json") (inr [])
  = RText 404 (lit "Log not found").
Proof.
  destruct (get_unsaved cfg_dev st_dev (run_posts cfg_dev st_dev [(env_at t0, req_a 1)]).1
              [(env_at t0, req_a 1)] (run_posts cfg_dev st_dev [(env_at t0, req_a 1)]).2
              (lit "missing.json") (surjective_pairing _)) as [_ Hfile].
  apply (proj2 (Hfile eq_refl)).
  - vm_compute. reflexivity.
  - intros q Hq. apply list_elem_of_singleton in Hq as ->. vm_compute. discriminate.
Defined.

(** The name [.] is never a log file name, and [GET /logs/.] in the file
    backend reads the logs directory itself: a 500, not a 404. *)
Lemma get_unsaved_dot :
  (forall t, log_filename t <> lit ".") /\
  get_log cfg_dev st_dev (lit ".") (inr []) =
    RError (lit "Error reading log: ") (ErrSys (EISDIR (lit "read") None)) /\
  status_of (get_log cfg_dev st_dev (lit ".") (inr [])) = 500.
Proof.
  split_and!.
  - intros t. apply log_filename_not_dots.
  - vm_compute. reflexivity.
  - vm_compute. reflexivity.
Qed.

(* ------------------------------------------------------------------ *)
(** ** C4: file names in the database backend *)




(* ------------------------------------------------------------------ *)
(** ** C5: listing the logs directory *)

(** C5 (amended): in the file backend [GET /logs] lists every entry of
    the logs directory whose name ends in [.json] (not only the
    [webhook-<timestamp>.json] files), under its full entry name (nothing
    is stripped), each once, in descending order; without a logs directory
    it answers 500. *)
Theorem list_file_backend (c : config) (st : state) (qres : jstr + list row) :
  use_db c = false ->
  (files st !! logsDir c = Some EDir ->
   exists names,
     get_logs c st qres = logs_page c names /\
     NoDup names /\ Sorted (fun a b => str_le b a) names /\
     (forall x, x ∈ names <-> is_Some (files st !! (logsDir c ++ [x])) /\
                              endsWith x (lit ".json") = true)) /\
  (files st !! logsDir c = None ->
   get_logs c st qres =
     RError (lit "Error reading logs: ") (ErrSys (ENOENT (lit "scandir") (logsDir_path c)))).
Proof.
  intros Hc. split.
  - intros Hd. apply get_logs_file; done.
  - intros Hd. unfold get_logs, readdir. rewrite Hc. cbn [logsDir_path fp_segs].
    rewrite Hd. reflexivity.
Qed.

Lemma list_file_backend_witness :
  exists names,
    get_logs cfg_dev st_notes (inr []) = logs_page cfg_dev names /\
    NoDup names /\ Sorted (fun a b => str_le b a) names /\
    (forall x, x ∈ names <-> is_Some (files st_notes !! (logsDir cfg_dev ++ [x])) /\
                             endsWith x (lit ".json") = true).
Proof.
  apply (list_file_backend cfg_dev st_notes (inr []) eq_refl).
  vm_compute. reflexivity.
Defined.

(** A file [notes.json] of someone's own in the logs directory is listed
    next to the saved log, and the saved log is listed under its full file
    name. *)
Lemma list_file_notes :
  get_logs cfg_dev (post_webhook cfg_dev st_notes (env_at t0) (req_a 1)).1 (inr []) =
    RLogList [log_filename t0; lit "notes.json"] (storage_label cfg_dev) /\
  log_filename t0 = lit "webhook-2024-06-15T11-30-45.123Z.json".
Proof. split; vm_compute; reflexivity. Qed.

(* ------------------------------------------------------------------ *)
(** ** C6: the acknowledgment of [POST /webhook] *)



(* ------------------------------------------------------------------ *)
(** ** C7: the timestamp of the acknowledgment *)

(** C7 (divergence): the two [new Date()] calls of [POST /webhook] may
    read different milliseconds; the log is named after the first reading
    while the acknowledgment (and the stored [timestamp] field) carry the
    second, so the acknowledged timestamp is not the identifier's. *)
Lemma ack_timestamp_tick :
  (post_webhook cfg_dev st_dev env_tick (req_a 1)).2 =
    RJson 200 (JObj [(lit "status", JStr (lit "success"));
                     (lit "message", JStr (lit "Webhook received and logged"));
                     (lit "timestamp", JStr (lit "2024-06-15T11:30:45.124Z"));
                     (lit "storage", JStr (lit "file"))]) /\
  log_filename (clock1 env_tick) = lit "webhook-2024-06-15T11-30-45.123Z.json" /\
  replace_colons (lit "2024-06-15T11:30:45.124Z") <> lit "2024-06-15T11-30-45.123Z".
Proof. split_and!; [vm_compute; reflexivity | vm_compute; reflexivity | discriminate]. Qed.

(* ------------------------------------------------------------------ *)
(** ** C8: malformed log files *)

(* ------------------------------------------------------------------ *)
(** ** The recognizer and the parser *)

Lemma parse_scan_string_body (s x r : jstr) :
  parse_string_body s = Some (x, r) -> scan_string_body s = Some r.
Proof.
  revert x. induction s as [s IH] using (induction_ltof1 _ (@length _)); intros x H.
  unfold ltof in IH.
  destruct s as [|c r0]; [discriminate|]. cbn [parse_string_body scan_string_body] in *.
  destruct (nat_of_ascii c =? 34); [congruence|].
  destruct (nat_of_ascii c =? 92).
  - destruct r0 as [|e r']; [discriminate|].
    destruct (simple_escape e).
    + destruct (parse_string_body r') as [[y r1]|] eqn:E; cbn in H; [|discriminate].
      injection H as <- <-. apply (IH r' ltac:(cbn; lia) y E).
    + destruct (nat_of_ascii e =? 117); [|discriminate].
      destruct r' as [|h1 [|h2 [|h3 [|h4 r'']]]]; try discriminate.
      unfold unicode_escape in H. unfold is_hex.
      destruct (hex_val h1), (hex_val h2), (hex_val h3), (hex_val h4); try discriminate.
      destruct (_ <? 256); [|discriminate]. cbn [andb].
      destruct (parse_string_body r'') as [[y r1]|] eqn:E; cbn in H; [|discriminate].
      injection H as <- <-. apply (IH r'' ltac:(cbn; lia) y E).
  - destruct (nat_of_ascii c <? 32); [discriminate|].
    destruct (parse_string_body r0) as [[y r1]|] eqn:E; cbn in H; [|discriminate].
    injection H as <- <-. apply (IH r0 ltac:(cbn; lia) y E).
Qed.

Lemma read_digits_rest (acc : N) (s : jstr) : (read_digits acc s).2 = scan_digits s.
Proof.
  revert acc; induction s as [|c s IH]; intros acc; [done|].
  cbn [read_digits scan_digits]. unfold is_digit. destruct (digit_val c); [apply IH|done].
Qed.

Lemma parse_scan_number (s : jstr) (v : json) (r : jstr) :
  parse_number s = Some (v, r) -> scan_number s = Some r.
Proof.
  unfold parse_number, scan_number. intros H.
  set (s1 := match s with
             | c :: r => if nat_of_ascii c =? 45 then r else s
             | [] => s
             end) in *.
  assert (Hs1 : match s with
                | c :: r0 => if nat_of_ascii c =? 45 then (true, r0) else (false, s)
                | [] => (false, s)
                end = ((match s with
                        | c :: r0 => nat_of_ascii c =? 45
                        | [] => false end), s1)).
  { subst s1. destruct s as [|c r0]; [done|]. destruct (nat_of_ascii c =? 45); done. }
  rewrite Hs1 in H. clearbody s1.
  destruct (parse_unsigned s1) as [[n r0]|] eqn:Hu; [|discriminate].
  destruct (frac_or_exp r0) eqn:Hfe; [discriminate|]. injection H as _ <-.
  assert (Hint : match s1 with
                 | c :: r => if nat_of_ascii c =? 48 then Some r
                             else if is_digit c then Some (scan_digits r) else None
                 | [] => None
                 end = Some r0).
  { unfold parse_unsigned in Hu. destruct s1 as [|c r]; [discriminate|].
    destruct (nat_of_ascii c =? 48).
    - destruct r as [|c' r']; [congruence|]. destruct (is_digit c'); congruence.
    - destruct (is_digit c) eqn:Ed; [|discriminate].
      injection Hu as Hr. unfold is_digit in Ed.
      destruct (digit_val c) as [d|]; [|discriminate].
      f_equal. rewrite <- (read_digits_rest (0 * 10 + d)%N r), Hr. reflexivity. }
  rewrite Hint. unfold frac_or_exp in Hfe.
  destruct r0 as [|c r]; [done|].
  apply orb_false_iff in Hfe as [Hfe He]. apply orb_false_iff in Hfe as [Hd He'].
  rewrite Hd, He, He'. reflexivity.
Qed.

Lemma parse_scan (n : nat) :
  (forall s v r, parse_value n s = Some (v, r) -> scan_value n s = Some r) /\
  (forall s acc l r, parse_elems n s acc = Some (l, r) -> scan_elems n s = Some r) /\
  (forall s acc l r, parse_members n s acc = Some (l, r) -> scan_members n s = Some r).
Proof.
  induction n as [|f IH]; [split_and!; intros; discriminate|].
  destruct IH as (IHv & IHe & IHm). split_and!.
  - intros s v r H. cbn [parse_value scan_value] in *.
    destruct (skip_ws s) as [|c r0]; [discriminate|].
    destruct (nat_of_ascii c =? 110); [destruct (strip_prefix _ r0); congruence|].
    destruct (nat_of_ascii c =? 116); [destruct (strip_prefix _ r0); congruence|].
    destruct (nat_of_ascii c =? 102); [destruct (strip_prefix _ r0); congruence|].
    destruct (nat_of_ascii c =? 34).
    { destruct (parse_string_body r0) as [[x r1]|] eqn:E; [|discriminate].
      injection H as _ <-. exact (parse_scan_string_body _ _ _ E). }
    destruct (nat_of_ascii c =? 91).
    { destruct (head_is 93 (skip_ws r0)); [congruence|].
      destruct (parse_elems f r0 []) as [[l r1]|] eqn:E; [|discriminate].
      injection H as _ <-. exact (IHe _ _ _ _ E). }
    destruct (nat_of_ascii c =? 123).
    { destruct (head_is 125 (skip_ws r0)); [congruence|].
      destruct (parse_members f r0 []) as [[l r1]|] eqn:E; [|discriminate].
      injection H as _ <-. exact (IHm _ _ _ _ E). }
    exact (parse_scan_number _ _ _ H).
  - intros s acc l r H. cbn [parse_elems scan_elems] in *.
    destruct (parse_value f s) as [[v r1]|] eqn:E; [|discriminate].
    rewrite (IHv _ _ _ E).
    destruct (head_is 44 (skip_ws r1)); [exact (IHe _ _ _ _ H)|].
    destruct (head_is 93 (skip_ws r1)); congruence.
  - intros s acc l r H. cbn [parse_members scan_members] in *.
    destruct (head_is 34 (skip_ws s)) as [r0|]; [|discriminate].
    destruct (parse_string_body r0) as [[k r1]|] eqn:Ek; [|discriminate].
    rewrite (parse_scan_string_body _ _ _ Ek).
    destruct (head_is 58 (skip_ws r1)) as [r2|]; [|discriminate].
    destruct (parse_value f r2) as [[v r3]|] eqn:E; [|discriminate].
    rewrite (IHv _ _ _ E).
    destruct (head_is 44 (skip_ws r3)); [exact (IHm _ _ _ _ H)|].
    destruct (head_is 125 (skip_ws r3)); congruence.
Qed.

Lemma skip_ws_len (s : jstr) : length (skip_ws s) <= length s.
Proof. induction s as [|c s IH]; [done|]. cbn. destruct (is_ws c); cbn; lia. Qed.

Lemma head_is_len (n : nat) (s r : jstr) : head_is n s = Some r -> length s = S (length r).
Proof. destruct s as [|c s]; cbn; [done|]. destruct (_ =? n); congruence. Qed.

Lemma strip_prefix_len (p s r : jstr) : strip_prefix p s = Some r -> length r <= length s.
Proof.
  revert s; induction p as [|c p IH]; intros s H; cbn in H; [injection H as ->; lia|].
  destruct s as [|d s]; [discriminate|]. destruct (Ascii.eqb c d); [|discriminate].
  apply IH in H. cbn. lia.
Qed.

Lemma scan_string_body_len (s r : jstr) : scan_string_body s = Some r -> length r < length s.
Proof.
  induction s as [s IH] using (induction_ltof1 _ (@length _)). unfold ltof in IH. intros H.
  destruct s as [|c r0]; [discriminate|]. cbn [scan_string_body] in H.
  destruct (nat_of_ascii c =? 34); [injection H as <-; cbn; lia|].
  destruct (nat_of_ascii c =? 92).
  - destruct r0 as [|e r']; [discriminate|].
    destruct (simple_escape e); [apply IH in H; cbn in *; lia|].
    destruct (nat_of_ascii e =? 117); [|discriminate].
    destruct r' as [|h1 [|h2 [|h3 [|h4 r'']]]]; try discriminate.
    destruct (_ && _); [|discriminate]. apply IH in H; cbn in *; lia.
  - destruct (nat_of_ascii c <? 32); [discriminate|]. apply IH in H; cbn in *; lia.
Qed.

Lemma scan_digits_len (s : jstr) : length (scan_digits s) <= length s.
Proof. induction s as [|c s IH]; [done|]. cbn. destruct (is_digit c); cbn; lia. Qed.

Lemma scan_digits1_len (s r : jstr) : scan_digits1 s = Some r -> length r < length s.
Proof.
  destruct s as [|c s]; cbn; [done|]. destruct (is_digit c); [|done].
  intros [= <-]. pose proof (scan_digits_len s). lia.
Qed.

Lemma scan_number_len (s r : jstr) : scan_number s = Some r -> length r < length s.
Proof.
  unfold scan_number. intros H.
  set (s1 := match s with
             | c :: r => if nat_of_ascii c =? 45 then r else s
             | [] => s
             end) in *.
  assert (L1 : length s1 <= length s).
  { subst s1. destruct s as [|c r0]; [done|]. destruct (nat_of_ascii c =? 45); cbn; lia. }
  clearbody s1. destruct s1 as [|c r0]; [discriminate|]. cbn in L1.
  assert (Hint : exists r1, (length r1 <= length r0)%nat /\
            match (if nat_of_ascii c =? 48 then Some r0
                   else if is_digit c then Some (scan_digits r0) else None) with
            | Some r1' => r1' = r1 | None => False end).
  { destruct (nat_of_ascii c =? 48); [exists r0; split; [lia|done]|].
    destruct (is_digit c); [|discriminate].
    exists (scan_digits r0). split; [apply scan_digits_len|done]. }
  destruct Hint as (r1 & Lr1 & Hr1).
  destruct (if nat_of_ascii c =? 48 then Some r0
            else if is_digit c then Some (scan_digits r0) else None) as [r1'|]; [|done].
  subst r1'.
  assert (Hfr : forall r2, match r1 with
                  | c :: r => if nat_of_ascii c =? 46 then scan_digits1 r else Some r1
                  | [] => Some r1
                  end = Some r2 -> length r2 <= length r1).
  { intros r2. destruct r1 as [|c1 r1']; [intros [= <-]; lia|].
    destruct (nat_of_ascii c1 =? 46); [|intros [= <-]; lia].
    intros E. apply scan_digits1_len in E. cbn. lia. }
  destruct (match r1 with
            | c :: r => if nat_of_ascii c =? 46 then scan_digits1 r else Some r1
            | [] => Some r1
            end) as [r2|] eqn:E2; [|discriminate].
  specialize (Hfr r2 eq_refl).
  destruct r2 as [|c2 r2']; [injection H as <-; cbn in *; lia|].
  destruct ((nat_of_ascii c2 =? 101) || (nat_of_ascii c2 =? 69)); [|injection H as <-; cbn in *; lia].
  apply scan_digits1_len in H.
  destruct r2' as [|d r3]; [cbn in *; lia|].
  destruct ((nat_of_ascii d =? 43) || (nat_of_ascii d =? 45)); cbn in *; lia.
Qed.

Lemma scan_len (n : nat) :
  (forall s r, scan_value n s = Some r -> length r < length s) /\
  (forall s r, scan_elems n s = Some r -> length r < length s) /\
  (forall s r, scan_members n s = Some r -> length r < length s).
Proof.
  induction n as [|f IH]; [split_and!; intros; discriminate|].
  destruct IH as (IHv & IHe & IHm). split_and!.
  - intros s r H. cbn [scan_value] in H. pose proof (skip_ws_len s) as Ls.
    destruct (skip_ws s) as [|c r0]; [discriminate|]. cbn in Ls.
    destruct (nat_of_ascii c =? 110); [apply strip_prefix_len in H; lia|].
    destruct (nat_of_ascii c =? 116); [apply strip_prefix_len in H; lia|].
    destruct (nat_of_ascii c =? 102); [apply strip_prefix_len in H; lia|].
    destruct (nat_of_ascii c =? 34); [apply scan_string_body_len in H; lia|].
    destruct (nat_of_ascii c =? 91).
    { pose proof (skip_ws_len r0).
      destruct (head_is 93 (skip_ws r0)) eqn:Eh;
        [injection H as <-; apply head_is_len in Eh; lia|apply IHe in H; lia]. }
    destruct (nat_of_ascii c =? 123).
    { pose proof (skip_ws_len r0).
      destruct (head_is 125 (skip_ws r0)) eqn:Eh;
        [injection H as <-; apply head_is_len in Eh; lia|apply IHm in H; lia]. }
    apply scan_number_len in H. cbn in H. lia.
  - intros s r H. cbn [scan_elems] in H.
    destruct (scan_value f s) as [r1|] eqn:E; [|discriminate]. apply IHv in E.
    pose proof (skip_ws_len r1).
    destruct (head_is 44 (skip_ws r1)) eqn:Ec;
      [apply head_is_len in Ec; apply IHe in H; lia|apply head_is_len in H; lia].
  - intros s r H. cbn [scan_members] in H. pose proof (skip_ws_len s).
    destruct (head_is 34 (skip_ws s)) as [r0|] eqn:Eq; [|discriminate]. apply head_is_len in Eq.
    destruct (scan_string_body r0) as [r1|] eqn:Ek; [|discriminate].
    apply scan_string_body_len in Ek. pose proof (skip_ws_len r1).
    destruct (head_is 58 (skip_ws r1)) as [r2|] eqn:Ecol; [|discriminate].
    apply head_is_len in Ecol.
    destruct (scan_value f r2) as [r3|] eqn:E; [|discriminate]. apply IHv in E.
    pose proof (skip_ws_len r3).
    destruct (head_is 44 (skip_ws r3)) eqn:Ec;
      [apply head_is_len in Ec; apply IHm in H; lia|apply head_is_len in H; lia].
Qed.

Lemma scan_fuel (n : nat) :
  (forall s r, scan_value n s = Some r ->
     forall m, length s - length r <= m -> scan_value m s = Some r) /\
  (forall s r, scan_elems n s = Some r ->
     forall m, length s - length r <= m -> scan_elems m s = Some r) /\
  (forall s r, scan_members n s = Some r ->
     forall m, length s - length r <= m -> scan_members m s = Some r).
Proof.
  induction n as [|f IH]; [split_and!; intros; discriminate|].
  destruct IH as (IHv & IHe & IHm). split_and!.
  - intros s r H m Hm.
    pose proof (proj1 (scan_len (S f)) s r H) as Lr.
    destruct m as [|m]; [lia|].
    cbn [scan_value] in H |- *. pose proof (skip_ws_len s) as Ls.
    destruct (skip_ws s) as [|c r0]; [discriminate|]. cbn in Ls.
    destruct (nat_of_ascii c =? 110); [exact H|].
    destruct (nat_of_ascii c =? 116); [exact H|].
    destruct (nat_of_ascii c =? 102); [exact H|].
    destruct (nat_of_ascii c =? 34); [exact H|].
    destruct (nat_of_ascii c =? 91).
    { destruct (head_is 93 (skip_ws r0)); [exact H|].
      pose proof (proj1 (proj2 (scan_len f)) _ _ H).
      apply (IHe _ _ H). lia. }
    destruct (nat_of_ascii c =? 123).
    { destruct (head_is 125 (skip_ws r0)); [exact H|].
      pose proof (proj2 (proj2 (scan_len f)) _ _ H).
      apply (IHm _ _ H). lia. }
    exact H.
  - intros s r H m Hm.
    pose proof (proj1 (proj2 (scan_len (S f))) s r H) as Lr.
    destruct m as [|m]; [lia|].
    cbn [scan_elems] in H |- *.
    destruct (scan_value f s) as [r1|] eqn:E; [|discriminate].
    pose proof (proj1 (scan_len f) _ _ E). pose proof (skip_ws_len r1).
    destruct (head_is 44 (skip_ws r1)) as [r'|] eqn:Ec.
    + pose proof (head_is_len _ _ _ Ec). pose proof (proj1 (proj2 (scan_len f)) _ _ H).
      rewrite (IHv _ _ E m) by lia. rewrite Ec. apply (IHe _ _ H). lia.
    + pose proof (head_is_len _ _ _ H).
      rewrite (IHv _ _ E m) by lia. rewrite Ec. exact H.
  - intros s r H m Hm.
    pose proof (proj2 (proj2 (scan_len (S f))) s r H) as Lr.
    destruct m as [|m]; [lia|].
    cbn [scan_members] in H |- *. pose proof (skip_ws_len s).
    destruct (head_is 34 (skip_ws s)) as [r0|] eqn:Eq; [|discriminate].
    pose proof (head_is_len _ _ _ Eq).
    destruct (scan_string_body r0) as [r1|] eqn:Ek; [|discriminate].
    pose proof (scan_string_body_len _ _ Ek). pose proof (skip_ws_len r1).
    destruct (head_is 58 (skip_ws r1)) as [r2|] eqn:Ecol; [|discriminate].
    pose proof (head_is_len _ _ _ Ecol).
    destruct (scan_value f r2) as [r3|] eqn:E; [|discriminate].
    pose proof (proj1 (scan_len f) _ _ E). pose proof (skip_ws_len r3).
    destruct (head_is 44 (skip_ws r3)) as [r5|] eqn:Ec.
    + pose proof (head_is_len _ _ _ Ec). pose proof (proj2 (proj2 (scan_len f)) _ _ H).
      rewrite (IHv _ _ E m) by lia. rewrite Ec. apply (IHm _ _ H). lia.
    + pose proof (head_is_len _ _ _ H).
      rewrite (IHv _ _ E m) by lia. rewrite Ec. exact H.
Qed.

Lemma json_parse_text_ok (s : jstr) (v : json) : json_parse s = Some v -> json_text_ok s = true.
Proof.
  unfold json_parse, json_text_ok.
  destruct (parse_value (S (length s)) s) as [[v' r]|] eqn:E; [|discriminate].
  rewrite (proj1 (parse_scan _) _ _ _ E). destruct (skip_ws r); congruence.
Qed.

(** The fuel of [json_text_ok] is enough: a text that the recognizer
    accepts at any fuel is accepted. *)
Lemma json_text_ok_complete (n : nat) (s r : jstr) :
  scan_value n s = Some r -> skip_ws r = [] -> json_text_ok s = true.
Proof.
  intros H Hr. unfold json_text_ok.
  rewrite (proj1 (scan_fuel n) s r H (S (length s))) by lia. rewrite Hr. reflexivity.
Qed.

(** The recognizer accepts fractions, exponents and [\u] escapes beyond
    the 8-bit range, which [json_parse] does not model, and refuses what the
    grammar refuses. *)
Example json_text_ok_ex :
  json_text_ok (sq " {'a' : [1.5e-3, -0, 'x\u0100y'], 'b': null} ") = true /\
  json_parse (sq "{'a':1.5}") = None /\ json_text_ok (sq "{'a':1.5}") = true /\
  json_text_ok (sq "{'a':01}") = false /\ json_text_ok (sq "[1,]") = false /\
  json_text_ok (sq "{") = false /\ json_text_ok (sq "1.") = false.
Proof. split_and!; reflexivity. Qed.

(** C8: in the file backend, [GET /logs/:filename] on a regular file whose
    text is not JSON (outside the grammar [JSON.parse] accepts, as decided
    by [json_text_ok]) answers 500 with the [SyntaxError] of [JSON.parse],
    while a name at which nothing exists answers 404. *)
Theorem get_malformed_file (c : config) (st : state) (name content : jstr)
    (qres : jstr + list row) :
  use_db c = false ->
  files st !! fp_segs (path_join (logsDir c) name) = Some (EFile content) ->
  fp_trail (path_join (logsDir c) name) = false ->
  json_text_ok content = false ->
  get_log c st name qres = RError (lit "Error reading log: ") ErrSyntax /\
  status_of (get_log c st name qres) = 500 /\
  (forall name', fs_stat (files st) (path_join (logsDir c) name') = None ->
     get_log c st name' qres = RText 404 (lit "Log not found") /\
     status_of (get_log c st name' qres) = 404).
Proof.
  intros Hc Hf Ht Hj.
  assert (Hp : json_parse content = None).
  { destruct (json_parse content) eqn:Ep; [|reflexivity].
    apply json_parse_text_ok in Ep. congruence. }
  assert (E : get_log c st name qres = RError (lit "Error reading log: ") ErrSyntax).
  { unfold get_log. rewrite Hc, (read_log_file_regular c st name content Hf Ht), Hp. done. }
  split_and!; [exact E | rewrite E; reflexivity |].
  intros name' Hn. assert (E' : get_log c st name' qres = RText 404 (lit "Log not found"))
    by (apply get_log_file_404; done).
  rewrite E'. done.
Qed.

Lemma get_malformed_file_witness :
  get_log cfg_dev st_broken (lit "broken.json") (inr []) =
    RError (lit "Error reading log: ") ErrSyntax /\
  status_of (get_log cfg_dev st_broken (lit "broken.json") (inr [])) = 500 /\
  (forall name', fs_stat (files st_broken) (path_join (logsDir cfg_dev) name') = None ->
     get_log cfg_dev st_broken name' (inr []) = RText 404 (lit "Log not found") /\
     status_of (get_log cfg_dev st_broken name' (inr [])) = 404).
Proof.
  apply (get_malformed_file cfg_dev st_broken (lit "broken.json") (lit "{") (inr []));
    [reflexivity | vm_compute; reflexivity | reflexivity | vm_compute; reflexivity].
Defined.

(* ------------------------------------------------------------------ *)
(** ** C9: what a save changes *)

(** C9 (amended): [GET /logs] and [GET /logs/:filename] only read.  A
    [POST /webhook] in the database backend only appends rows and leaves
    the earlier ones as they were; in the file backend it writes exactly
    one path, [logsDir/<its file name>], creating or replacing what is
    there, and leaves every other path unchanged. *)
Theorem save_frame (c : config) (st : state) (env : post_env) (req : request) :
  let '(st', _) := post_webhook c st env req in
  (use_db c = true ->
   files st' = files st /\ exists new, webhook_logs st' = webhook_logs st ++ new) /\
  (use_db c = false ->
   webhook_logs st' = webhook_logs st /\
   forall p, p <> logsDir c ++ [log_filename (clock1 env)] -> files st' !! p = files st !! p).
Proof.
  destruct (post_webhook c st env req) as [st' r] eqn:Hpost. split.
  - intros Hc. destruct (post_webhook_db_frame _ _ _ _ _ _ Hc Hpost) as (Hf & new & Hn & _).
    split; [exact Hf|]. exists new. exact Hn.
  - intros Hc. apply (post_webhook_file_frame _ _ _ _ _ _ Hc Hpost).
Qed.

(** Two payloads received in the same millisecond by the file backend:
    both are acknowledged, and the second replaces the file of the first. *)
Lemma save_overwrites :
  let '(st1, r1) := post_webhook cfg_dev st_dev (env_at t0) (req_a 1) in
  let '(st2, r2) := post_webhook cfg_dev st1 (env_at t0) (req_a 2) in
  status_of r1 = 200 /\ status_of r2 = 200 /\
  get_log cfg_dev st1 (log_filename t0) (inr []) =
    RLogPage (log_filename t0) (Some (req_headers (req_a 1))) (Some (JObj [(lit "a", JNum 1)]))
             (Some (JObj [])) (storage_label cfg_dev) /\
  get_log cfg_dev st2 (log_filename t0) (inr []) =
    RLogPage (log_filename t0) (Some (req_headers (req_a 2))) (Some (JObj [(lit "a", JNum 2)]))
             (Some (JObj [])) (storage_label cfg_dev).
Proof. vm_compute. split_and!; reflexivity. Qed.

(* ------------------------------------------------------------------ *)
(** ** C10: names outside the log files *)

(** C10: in the file backend, [GET /logs/:filename] resolves any name
    against the logs directory without checking it: a name whose joined
    path is an existing JSON file other than a log file (for instance one
    reached through [..] segments) is shown, although that name is no log
    file name and no save ever writes that file. *)
Theorem get_any_file (c : config) (st : state) (name : jstr) (p : list jstr)
    (content : jstr) (v : json) (qres : jstr + list row) :
  use_db c = false ->
  path_join (logsDir c) name = {| fp_segs := p; fp_trail := false |} ->
  (forall t, p <> logsDir c ++ [log_filename t]) ->
  files st !! p = Some (EFile content) ->
  json_parse content = Some v -> v <> JNull ->
  get_log c st name qres =
    RLogPage name (get_prop v (lit "headers")) (get_prop v (lit "body"))
             (get_prop v (lit "query")) (storage_label c) /\
  (forall t, name <> log_filename t) /\
  (forall env req, files (post_webhook c st env req).1 !! p = Some (EFile content)).
Proof.
  intros Hc Hj Hp Hf Hv Hnn. split_and!.
  - unfold get_log. rewrite Hc.
    rewrite (read_log_file_regular c st name content); [|rewrite Hj; exact Hf|rewrite Hj; done].
    rewrite Hv. destruct v; done.
  - intros t ->. rewrite path_join_log_filename in Hj. injection Hj as Hj.
    apply (Hp t). symmetry. exact Hj.
  - intros env req.
    destruct (post_webhook c st env req) as [st' r] eqn:Hpost. cbn [fst].
    destruct (post_webhook_file_frame _ _ _ _ _ _ Hc Hpost) as [_ Hfr].
    rewrite Hfr; [exact Hf|apply Hp].
Qed.

Lemma get_any_file_witness :
  get_log cfg_dev st_dev (lit "../../package.json") (inr []) =
    RLogPage (lit "../../package.json") None
             (Some (JObj [(lit "main", JStr (lit "src/server.js"))])) None
             (storage_label cfg_dev) /\
  (forall t, lit "../../package.json" <> log_filename t) /\
  (forall env req, files (post_webhook cfg_dev st_dev env req).1 !! [lit "app"; lit "package.json"]
                   = Some (EFile package_json)).
Proof.
  assert (Hpj : json_parse package_json =
    Some (JObj [(lit "name", JStr (lit "webhook-logger"));
                (lit "body", JObj [(lit "main", JStr (lit "src/server.js"))])]))
    by (vm_compute; reflexivity).
  apply (get_any_file cfg_dev st_dev (lit "../../package.json") [lit "app"; lit "package.json"]
           package_json (JObj [(lit "name", JStr (lit "webhook-logger"));
                               (lit "body", JObj [(lit "main", JStr (lit "src/server.js"))])])
           (inr []) eq_refl).
  - vm_compute. reflexivity.
  - intros t. key_length_ne.
  - rewrite st_dev_files, lookup_insert_ne by key_length_ne. vm_compute. reflexivity.
  - exact Hpj.
  - discriminate.
Defined.

(* ------------------------------------------------------------------ *)
(** ** Further properties of the code: startup, storage outcomes, reads *)

(** X1: the server stores in the database exactly when DATABASE_URL is set
    ([isProduction && pool] reduces to it), and when [isProduction] holds
    startup creates no logs directory: the state is left unchanged. *)
Theorem backend_choice (c : config) (st : state) :
  use_db c = DATABASE_URL c /\ (isProduction c = true -> startup c st = Some st).
Proof.
  split.
  - unfold use_db, pool, isProduction.
    destruct (NODE_ENV_production c), (DATABASE_URL c); reflexivity.
  - intros H. unfold startup. rewrite H. reflexivity.
Qed.

Lemma take_prefix_step (done_ : list jstr) (seg : jstr) (rest : list jstr) (i : nat) :
  done_ ++ take (S i) (seg :: rest) = (done_ ++ [seg]) ++ take i rest.
Proof. rewrite <- app_assoc. reflexivity. Qed.

Lemma app_take_ne (d rest : list jstr) (i : nat) :
  1 <= i <= length rest -> d ++ take i rest <> d.
Proof.
  intros Hi Heq. apply (f_equal length) in Heq. rewrite length_app, length_take in Heq. lia.
Qed.

Lemma ensure_dir_aux_Some (fs fs' : fsys) (done_ todo : list jstr) :
  ensure_dir_aux fs done_ todo = Some fs' ->
  (forall i, 1 <= i <= length todo -> fs' !! (done_ ++ take i todo) = Some EDir) /\
  (forall k, (forall i, 1 <= i <= length todo -> k <> done_ ++ take i todo) ->
             fs' !! k = fs !! k).
Proof.
  revert fs done_. induction todo as [|seg rest IH]; intros fs done_ H;
    cbn [ensure_dir_aux] in H.
  - injection H as <-. split; [cbn; lia|done].
  - cbn [length].
    destruct (fs !! (done_ ++ [seg])) as [[c0|]|] eqn:Ed; [discriminate| |];
      destruct (IH _ _ H) as [H1 H2]; split.
    + intros [|i] Hi; [lia|]. rewrite take_prefix_step.
      destruct i as [|i].
      * rewrite app_nil_r, H2; [exact Ed|]. intros j Hj. apply not_eq_sym, app_take_ne. done.
      * apply H1. lia.
    + intros k Hk. apply H2. intros j Hj. rewrite <- take_prefix_step. apply Hk. lia.
    + intros [|i] Hi; [lia|]. rewrite take_prefix_step.
      destruct i as [|i].
      * rewrite app_nil_r, H2; [apply lookup_insert_eq|].
        intros j Hj. apply not_eq_sym, app_take_ne. done.
      * apply H1. lia.
    + intros k Hk. rewrite H2.
      * apply lookup_insert_ne. intros <-. apply (Hk 1); [lia|]. reflexivity.
      * intros j Hj. rewrite <- take_prefix_step. apply Hk. lia.
Qed.




Lemma ensure_dir_aux_all_dirs (fs : fsys) (done_ todo : list jstr) :
  (forall i, 1 <= i <= length todo -> fs !! (done_ ++ take i todo) = Some EDir) ->
  ensure_dir_aux fs done_ todo = Some fs.
Proof.
  revert done_. induction todo as [|seg rest IH]; intros done_ H; cbn [ensure_dir_aux]; [done|].
  rewrite (H 1 ltac:(cbn; lia) : fs !! (done_ ++ [seg]) = Some EDir). apply IH. intros i Hi. rewrite <- take_prefix_step.
  apply H. cbn. lia.
Qed.

(** X3: running the startup directory creation again on the state it
    produced succeeds and changes nothing. *)
Theorem startup_idempotent (c : config) (st st' : state) :
  startup c st = Some st' -> startup c st' = Some st'.
Proof.
  unfold startup. destruct (isProduction c); [congruence|].
  destruct (ensureDirSync (files st) (logsDir c)) as [fs|] eqn:E; [|discriminate].
  intros [= <-]. cbn [files webhook_logs next_id]. unfold ensureDirSync in *.
  apply ensure_dir_aux_Some in E as [E1 _]. rewrite ensure_dir_aux_all_dirs by exact E1.
  reflexivity.
Qed.

Lemma startup_idempotent_witness :
  startup cfg_dev st_checkout = Some st_dev /\ startup cfg_dev st_dev = Some st_dev.
Proof.
  assert (H : startup cfg_dev st_checkout = Some st_dev) by (vm_compute; reflexivity).
  split; [exact H|]. exact (startup_idempotent cfg_dev st_checkout st_dev H).
Defined.

Lemma removelast_ne (k : list jstr) : k <> [] -> removelast k <> k.
Proof.
  intros Hk Heq. pose proof (app_removelast_last [] Hk) as Hl.
  apply (f_equal length) in Hl. rewrite length_app, Heq in Hl. cbn in Hl. lia.
Qed.

Lemma fs_wf_insert (fs : fsys) (k : list jstr) (e : entry) :
  fs_wf fs -> k <> [] -> fs !! removelast k = Some EDir ->
  e = EDir \/ fs !! k <> Some EDir ->
  fs_wf (<[k := e]> fs).
Proof.
  intros [Hr Hall] Hk Hp He. split.
  - rewrite lookup_insert_ne; [exact Hr|]. congruence.
  - apply map_Forall_insert_2.
    + right. rewrite lookup_insert_ne; [exact Hp|]. apply not_eq_sym, removelast_ne, Hk.
    + intros k' e' Hk'. destruct (Hall k' e' Hk') as [->|Hpar]; [by left|right].
      destruct (decide (removelast k' = k)) as [<-|Hne].
      * rewrite lookup_insert_eq. destruct He as [->|He]; [done|contradiction].
      * rewrite lookup_insert_ne; done.
Qed.

Lemma writeFileSync_wf (fs : fsys) (p : fpath) (data : jstr) (flt : option save_fault) :
  fs_wf fs -> fs_wf (writeFileSync fs p data flt).1.
Proof.
  intros Hwf. unfold writeFileSync.
  destruct (fs !! fp_segs p) as [e0|] eqn:E; [destruct e0 as [c0|]; [|done]|];
    (destruct (fp_trail p); [done|]);
    (destruct (fs !! removelast (fp_segs p)) as [[c1|]|] eqn:Ep; [done| |done]);
    destruct flt as [[| |]|]; cbn [fst]; try done;
    (apply fs_wf_insert; [done| |done|right; congruence]);
    intros Hn; rewrite Hn in Ep, E; cbn in Ep; congruence.
Qed.

Lemma ensure_dir_aux_wf (fs fs' : fsys) (done_ todo : list jstr) :
  fs_wf fs -> fs !! done_ = Some EDir -> ensure_dir_aux fs done_ todo = Some fs' -> fs_wf fs'.
Proof.
  revert fs done_. induction todo as [|seg rest IH]; intros fs done_ Hwf Hd H;
    cbn [ensure_dir_aux] in H.
  - injection H as <-. done.
  - destruct (fs !! (done_ ++ [seg])) as [[c0|]|] eqn:E; [discriminate| |].
    + eapply IH; [exact Hwf|exact E|exact H].
    + eapply IH; [| |exact H].
      * apply fs_wf_insert; [done| |rewrite removelast_last; done|by left].
        destruct done_; discriminate.
      * apply lookup_insert_eq.
Qed.

Lemma post_webhook_files (c : config) (st : state) (env : post_env) (req : request) :
  files (post_webhook c st env req).1 = files st \/
  files (post_webhook c st env req).1 =
    (writeFileSync (files st) (path_join (logsDir c) (log_filename (clock1 env)))
       (json_stringify2 (log_data (toISOString (clock2 env)) req)) (fault env)).1.
Proof.
  unfold post_webhook. cbv zeta.
  generalize (log_data (toISOString (clock2 env)) req) as ld.
  generalize (log_filename (clock1 env)) as fname. intros fname ld.
  destruct (save c st env fname ld req) as [s|[s m]] eqn:E; cbn [fst];
    destruct (use_db c) eqn:Hc.
  - left. destruct (save_db_inl _ _ _ _ _ _ _ Hc E) as (_ & _ & _ & _ & _ & _ & Hf & _). done.
  - right. unfold save in E. rewrite Hc in E.
    destruct (writeFileSync _ _ _ _) as [fs' err]. destruct err; [discriminate|].
    injection E as <-. reflexivity.
  - left. apply save_db_inr in E as ->; done.
  - right. unfold save in E. rewrite Hc in E.
    destruct (writeFileSync _ _ _ _) as [fs' err]. destruct err; [|discriminate].
    injection E as <- _. reflexivity.
Qed.

(** X4: the file system stays a tree (the root is a directory and the
    parent of every entry is a directory) through startup and through
    any POST /webhook. *)
Theorem fs_tree_kept (c : config) (st : state) :
  fs_wf (files st) ->
  (forall st', startup c st = Some st' -> fs_wf (files st')) /\
  (forall env req, fs_wf (files (post_webhook c st env req).1)).
Proof.
  intros Hwf. split.
  - intros st'. unfold startup. destruct (isProduction c); [congruence|].
    destruct (ensureDirSync (files st) (logsDir c)) as [fs|] eqn:E; [|discriminate].
    intros [= <-]. cbn [files]. eapply ensure_dir_aux_wf; [exact Hwf| |exact E].
    apply Hwf.
  - intros env req. destruct (post_webhook_files c st env req) as [-> | ->]; [done|].
    apply writeFileSync_wf, Hwf.
Qed.

Lemma fs_tree_kept_witness : fs_wf (files st_checkout) /\ fs_wf (files st_dev).
Proof.
  assert (H : fs_wf (files st_checkout)) by (apply (bool_decide_unpack _); vm_compute; exact I).
  split; [exact H|].
  apply (proj1 (fs_tree_kept cfg_dev st_checkout H)). vm_compute. reflexivity.
Defined.



Lemma post_webhook_file_state (c : config) (st : state) (env : post_env) (req : request) :
  use_db c = false ->
  webhook_logs (post_webhook c st env req).1 = webhook_logs st /\
  next_id (post_webhook c st env req).1 = next_id st.
Proof.
  intros Hc. unfold post_webhook. cbv zeta.
  generalize (log_data (toISOString (clock2 env)) req) as ld.
  generalize (log_filename (clock1 env)) as fname. intros fname ld.
  unfold save. rewrite Hc.
  destruct (writeFileSync _ _ _ _) as [fs' err]. destruct err; done.
Qed.

(** X6: in the file backend a POST never touches the table; on 200 the log
    path holds exactly the pretty-printed log data, on 500 the files are
    unchanged or the log path holds a prefix of that text. *)
Theorem file_post_outcome (c : config) (st st' : state) (env : post_env) (req : request)
    (r : response) :
  use_db c = false -> post_webhook c st env req = (st', r) ->
  let p := logsDir c ++ [log_filename (clock1 env)] in
  let text := json_stringify2 (log_data (toISOString (clock2 env)) req) in
  webhook_logs st' = webhook_logs st /\ next_id st' = next_id st /\
  ((status_of r = 200 /\ files st' = <[p := EFile text]> (files st)) \/
   (status_of r = 500 /\
    (files st' = files st \/ exists n, files st' = <[p := EFile (take n text)]> (files st)))).
Proof.
  intros Hc Hpost p text.
  pose proof (post_webhook_file_state c st env req Hc) as Hs. rewrite Hpost in Hs.
  cbn [fst] in Hs. destruct Hs as [Hrows Hn]. split_and!; [exact Hrows|exact Hn|].
  destruct (post_webhook_cases _ _ _ _ _ _ Hpost) as [[Hsave ->]|(msg & Hsave & ->)].
  - left. destruct (save_file_inl _ _ _ _ _ _ _ Hc Hsave) as (_ & _ & Hfiles & _).
    rewrite path_join_log_filename in Hfiles. split; [reflexivity|exact Hfiles].
  - right. split; [reflexivity|].
    destruct (save_file_inr _ _ _ _ _ _ _ _ Hc Hsave) as (_ & [Hfiles|(n & Hfiles)]);
      [by left|right].
    rewrite path_join_log_filename in Hfiles. exists n. exact Hfiles.
Qed.

Lemma file_post_outcome_witness :
  is_Some (files (post_webhook cfg_dev st_dev (env_at t0) (req_a 1)).1
             !! (logsDir cfg_dev ++ [log_filename t0])).
Proof.
  destruct (file_post_outcome cfg_dev st_dev (post_webhook cfg_dev st_dev (env_at t0) (req_a 1)).1
              (env_at t0) (req_a 1) (post_webhook cfg_dev st_dev (env_at t0) (req_a 1)).2
              eq_refl (surjective_pairing _))
    as (_ & _ & [(_ & Hf)|(Hs & _)]).
  - rewrite Hf. cbn [clock1 env_at]. rewrite lookup_insert_eq. eexists; reflexivity.
  - vm_compute in Hs. discriminate.
Defined.




Lemma path_join_plain (base : list jstr) (name : jstr) :
  Forall (fun x => x <> "/"%char) name -> name <> [] -> name <> lit "." -> name <> lit ".." ->
  path_join base name = {| fp_segs := base ++ [name]; fp_trail := false |}.
Proof.
  intros Hs H0 H1 H2. unfold path_join. rewrite split_slash_no_slash by exact Hs.
  cbn [foldl]. unfold norm_step, ends_with_slash.
  rewrite !bool_decide_false by done. cbn [orb].
  destruct (last name) as [x|] eqn:El; [|reflexivity].
  apply last_Some_elem_of in El. rewrite Forall_forall in Hs. specialize (Hs x El).
  destruct (Ascii.eqb_spec x "/"%char); [contradiction|reflexivity].
Qed.

(** X8: in the file backend, GET /logs/:filename on a plain name (no slash,
    not empty, '.' or '..') answers 404 when nothing is there, 500 EISDIR on
    a directory, and 500 TypeError on a file holding null. *)
Theorem get_log_plain (c : config) (st : state) (name : jstr) (qres : jstr + list row) :
  use_db c = false ->
  Forall (fun x => x <> "/"%char) name -> name <> [] -> name <> lit "." -> name <> lit ".." ->
  (files st !! (logsDir c ++ [name]) = None ->
     get_log c st name qres = RText 404 (lit "Log not found")) /\
  (files st !! (logsDir c ++ [name]) = Some EDir ->
     get_log c st name qres =
       RError (lit "Error reading log: ") (ErrSys (EISDIR (lit "read") None))) /\
  (forall content, files st !! (logsDir c ++ [name]) = Some (EFile content) ->
     json_parse content = Some JNull ->
     get_log c st name qres =
       RError (lit "Error reading log: ")
              (ErrType (lit "Cannot read properties of null (reading 'headers')"))).
Proof.
  intros Hc Hs H0 H1 H2. unfold get_log. rewrite Hc.
  unfold read_log_file, pathExists, fs_stat, readFile, storage_label. rewrite Hc.
  rewrite path_join_plain by done. cbn [fp_segs fp_trail]. split_and!.
  - intros ->. reflexivity.
  - intros ->. reflexivity.
  - intros content Hf Hp. rewrite Hf, Hp. reflexivity.
Qed.

Lemma get_log_plain_witness :
  get_log cfg_dev {| files := <[logsDir cfg_dev ++ [lit "old.json"] := EDir]> (files st_dev);
                     webhook_logs := []; next_id := 1 |} (lit "old.json") (inr []) =
    RError (lit "Error reading log: ") (ErrSys (EISDIR (lit "read") None)).
Proof.
  apply (get_log_plain cfg_dev _ (lit "old.json") (inr []));
    first [ reflexivity | discriminate
          | apply (bool_decide_unpack _); vm_compute; exact I
          | cbn [files]; apply lookup_insert_eq ].
Defined.



(** X10: in the file backend, when no entry of the logs directory ends in
    '.json', the listing shows the 'No logs yet' page. *)
Theorem empty_listing (c : config) (st : state) (qres : jstr + list row) :
  use_db c = false -> files st !! logsDir c = Some EDir ->
  (forall x, is_Some (files st !! (logsDir c ++ [x])) -> endsWith x (lit ".json") = false) ->
  get_logs c st qres = RNoLogs (lit "Local Files").
Proof.
  intros Hc Hd Hx. destruct (get_logs_file c st qres Hc Hd) as (names & -> & _ & _ & Hn).
  destruct names as [|x names].
  - unfold logs_page, storage_label. rewrite Hc. reflexivity.
  - exfalso. destruct (proj1 (Hn x) (list_elem_of_here x names)) as [Hs He].
    rewrite (Hx x Hs) in He. discriminate.
Qed.

Lemma empty_listing_witness :
  get_logs cfg_dev st_dev (inr []) = RNoLogs (lit "Local Files").
Proof.
  apply empty_listing; [reflexivity|vm_compute; reflexivity|].
  intros x. rewrite st_dev_logs_empty. intros [? Hs]. discriminate.
Defined.

Lemma Sorted_snoc_lt (l : list Z) (x : Z) :
  Sorted (fun a b => (a < b)%Z) l -> Forall (fun y => (y < x)%Z) l ->
  Sorted (fun a b => (a < b)%Z) (l ++ [x]).
Proof.
  induction l as [|a l IH]; intros Hs Hf; cbn; [repeat constructor|].
  apply Sorted_inv in Hs as [Hs Hh]. inversion Hf as [|? ? Ha Hf']; subst.
  constructor; [apply IH; done|].
  destruct l as [|b l]; cbn; constructor; [done|]. apply HdRel_inv in Hh. exact Hh.
Qed.

Lemma Sorted_lt_NoDup (l : list Z) : Sorted (fun a b => (a < b)%Z) l -> NoDup l.
Proof.
  intros Hs. apply Sorted_StronglySorted in Hs; [|intros ? ? ? ? ?; lia].
  induction Hs as [|a l Hs IH Hf]; constructor; [|done].
  intros Ha. rewrite Forall_forall in Hf. specialize (Hf a Ha). lia.
Qed.

Lemma post_webhook_ids (c : config) (st : state) (env : post_env) (req : request) :
  ids_ok st -> ids_ok (post_webhook c st env req).1.
Proof.
  intros [Hs Hb]. destruct (use_db c) eqn:Hc.
  - destruct (post_webhook c st env req) as [st' r] eqn:Hp. cbn [fst].
    destruct (post_webhook_cases _ _ _ _ _ _ Hp) as [[Hsave _]|(msg & Hsave & _)];
      revert Hsave; generalize (log_filename (clock1 env)); intros fname Hsave.
    + destruct (save_db_inl _ _ _ _ _ _ _ Hc Hsave)
        as (hv & bv & qv & _ & _ & _ & _ & Hn & Hrows).
      unfold ids_ok. rewrite Hrows, Hn, map_app. split.
      * apply Sorted_snoc_lt; [done|]. apply List.Forall_map. exact Hb.
      * apply Forall_app_2.
        -- eapply Forall_impl; [exact Hb|]. intros rw H. cbv beta in *. lia.
        -- constructor; [cbn; lia|constructor].
    + apply save_db_inr in Hsave; [subst st'; split; done|exact Hc].
  - destruct (post_webhook_file_state c st env req Hc) as [Hr Hn].
    unfold ids_ok. rewrite Hn, Hr. split; done.
Qed.

(** X11: across any sequence of POSTs the row ids stay strictly increasing
    and below the next SERIAL value, so no two rows share an id. *)
Theorem row_ids_increase (c : config) (st0 : state) (ps : list (post_env * request)) :
  ids_ok st0 ->
  ids_ok (run_posts c st0 ps).1 /\ NoDup (map id (webhook_logs (run_posts c st0 ps).1)).
Proof.
  intros Hok.
  assert (H : ids_ok (run_posts c st0 ps).1).
  { induction ps as [|[env req] ps IH] in st0, Hok |- *; cbn [run_posts]; [done|].
    destruct (post_webhook c st0 env req) as [st1 r] eqn:Ep.
    pose proof (post_webhook_ids c st0 env req Hok) as H1. rewrite Ep in H1. cbn [fst] in H1.
    specialize (IH st1 H1). destruct (run_posts c st1 ps) as [stN rs]. exact IH. }
  split; [exact H|]. apply Sorted_lt_NoDup, H.
Qed.

Lemma row_ids_increase_witness :
  NoDup (map id (webhook_logs
    (run_posts cfg_db st_checkout [(env_at t0, req_a 1); (env_at t0, req_a 2)]).1)).
Proof.
  apply (row_ids_increase cfg_db st_checkout _). split; cbn; constructor.
Defined.

#[global] Instance jsonb_key_le_total : Total jsonb_key_le.
Proof.
  intros a b. unfold jsonb_key_le.
  destruct (Nat.lt_trichotomy (utf8_length a.1) (utf8_length b.1)) as [Hl|[He|Hl]].
  - left. apply orb_true_intro. left. apply Nat.ltb_lt. exact Hl.
  - rewrite He, Nat.ltb_irrefl, Nat.eqb_refl. cbn [orb andb]. apply str_leb_total.
  - right. apply orb_true_intro. left. apply Nat.ltb_lt. exact Hl.
Qed.

Lemma keys_sorted_norm (v : json) : keys_sorted (jsonb_norm v) = true.
Proof.
  induction v as [| b | z | s | l IH | kvs IH] using json_ind'; try reflexivity.
  - cbn [jsonb_norm keys_sorted]. apply forallb_forall. intros x Hx.
    apply in_map_iff in Hx as (y & <- & Hy). rewrite List.Forall_forall in IH. apply IH, Hy.
  - cbn [jsonb_norm keys_sorted]. apply andb_true_intro. split.
    + apply bool_decide_eq_true. apply Sorted_merge_sort. apply _.
    + apply forallb_forall. intros kv Hkv.
      apply (Permutation_in _ (merge_sort_Permutation _ _)) in Hkv.
      apply in_map_iff in Hkv as (kv' & <- & Hkv'). cbn.
      rewrite List.Forall_forall in IH. apply (IH _ Hkv').
Qed.

(** X12: the row a successful database POST appends stores headers, body and
    query as JSONB does: object keys sorted (shorter keys first, then by
    code units) and each part equal as a JSON value to the request's. *)
Theorem db_row_normalised (c : config) (st st' : state) (env : post_env) (req : request)
    (r : response) :
  use_db c = true -> valid_request req = true -> post_webhook c st env req = (st', r) ->
  status_of r = 200 ->
  exists rw, webhook_logs st' = webhook_logs st ++ [rw] /\
    keys_sorted (headers rw) = true /\ keys_sorted (body rw) = true /\
    keys_sorted (query rw) = true /\
    json_equiv (headers rw) (req_headers req) /\ json_equiv (body rw) (req_body req) /\
    json_equiv (query rw) (req_query req).
Proof.
  intros Hc Hreq Hp H200. pose proof (post_webhook_200 _ _ _ _ _ _ Hp H200) as Hsave.
  revert Hsave. generalize (log_filename (clock1 env)). intros fname Hsave.
  destruct (save_db_inl _ _ _ _ _ _ _ Hc Hsave) as (hv & bv & qv & Hh & Hb & Hq & _ & _ & Hrows).
  unfold valid_request in Hreq. repeat (apply andb_prop in Hreq as [Hreq ?]).
  apply jsonb_in_stringify_inv in Hh as [-> _], Hb as [-> _], Hq as [-> _]; try done.
  eexists. split; [exact Hrows|]. cbn [headers body query].
  split_and!; first [apply keys_sorted_norm | apply json_equiv_norm].
Qed.

Lemma db_row_normalised_witness :
  exists rw, webhook_logs (post_webhook cfg_db st_checkout (env_at t0) req_unsorted).1 = [rw] /\
             keys_sorted (body rw) = true.
Proof.
  edestruct (db_row_normalised cfg_db st_checkout
               (post_webhook cfg_db st_checkout (env_at t0) req_unsorted).1 (env_at t0)
               req_unsorted (post_webhook cfg_db st_checkout (env_at t0) req_unsorted).2
               eq_refl eq_refl (surjective_pairing _)) as (rw & Hr & _ & Hb & _);
    [vm_compute; reflexivity|].
  exists rw. split; [exact Hr|exact Hb].
Defined.



Lemma number_to_string_safe (z : Z) :
  Forall (fun c => url_safe c = true) (number_to_string z).
Proof.
  destruct z as [|p|p]; cbn [number_to_string].
  - repeat constructor.
  - eapply Forall_impl; [apply n_digits_fuel_digits|].
    intros c Hc. unfold url_safe. rewrite Hc. reflexivity.
  - constructor; [reflexivity|].
    eapply Forall_impl; [apply n_digits_fuel_digits|].
    intros c Hc. unfold url_safe. rewrite Hc. reflexivity.
Qed.

Lemma pad_num_safe (w : nat) (z : Z) :
  Forall (fun c => url_safe c || Ascii.eqb c ":"%char = true) (pad_num w z).
Proof.
  unfold pad_num. apply Forall_app_2.
  - apply List.Forall_forall. intros c Hc. apply repeat_spec in Hc as ->. reflexivity.
  - eapply Forall_impl; [apply number_to_string_safe|]. intros c ->. reflexivity.
Qed.

Lemma toISOString_safe (t : Z) :
  Forall (fun c => url_safe c || Ascii.eqb c ":"%char = true) (toISOString t).
Proof.
  unfold toISOString. destruct (days_to_civil _) as [[y m] d].
  destruct (_ && _)%Z; [|destruct (y <? 0)%Z];
    repeat first [ apply pad_num_safe | apply Forall_app_2 | apply Forall_nil_2
                 | apply Forall_cons_2; [reflexivity|] ].
Qed.

(** X14: a log file name consists only of ASCII letters, digits, '-', '+'
    and '.', so the listing's href needs no escaping. *)
Theorem log_filename_url_safe (t : Z) : Forall (fun c => url_safe c = true) (log_filename t).
Proof.
  unfold log_filename. apply Forall_app_2; [repeat constructor|].
  apply Forall_app_2; [|repeat constructor].
  unfold replace_colons. apply Forall_fmap. eapply Forall_impl; [apply toISOString_safe|].
  intros c Hc. cbn. destruct (Ascii.eqb c ":"%char) eqn:E; [reflexivity|].
  cbv beta in Hc. rewrite E, orb_false_r in Hc. exact Hc.
Qed.

(* ------------------------------------------------------------------ *)
(** ** The calendar of [toISOString] and the order of log file names *)

Lemma all_Z_spec (P : Z -> bool) (n : nat) (k : Z) :
  all_Z P n k = true -> forall j, (k <= j < k + Z.of_nat n)%Z -> P j = true.
Proof.
  revert k; induction n as [|n IH]; intros k H j Hj; cbn [all_Z] in *; [lia|].
  apply andb_prop in H as [H1 H2].
  destruct (Z.eq_dec j k) as [->|Hne]; [done|]. apply (IH (k + 1)%Z); [done|lia].
Qed.

Lemma civil_ltb_spec (a b : Z * Z * Z) : civil_ltb a b = true -> civil_lt a b.
Proof.
  destruct a as [[y1 m1] d1], b as [[y2 m2] d2]. unfold civil_ltb, civil_lt.
  destruct (Z.ltb_spec y1 y2), (Z.eqb_spec y1 y2), (Z.ltb_spec m1 m2), (Z.eqb_spec m1 m2),
    (Z.ltb_spec d1 d2); cbn; intros; try discriminate; lia.
Qed.

Lemma civil_lt_trans (a b c : Z * Z * Z) : civil_lt a b -> civil_lt b c -> civil_lt a c.
Proof. destruct a as [[? ?] ?], b as [[? ?] ?], c as [[? ?] ?]; cbn; lia. Qed.

Lemma civil_lt_shift (k y1 m1 d1 y2 m2 d2 : Z) :
  civil_lt (y1, m1, d1) (y2, m2, d2) -> civil_lt ((y1 + k)%Z, m1, d1) ((y2 + k)%Z, m2, d2).
Proof. cbn; lia. Qed.

Lemma doy_steps :
  all_Z (fun doy => civil_ltb (doy_civil doy) (doy_civil (doy + 1))) 365 0 = true.
Proof. vm_compute. reflexivity. Qed.

Lemma doy_ranges : all_Z (fun doy => civil_ok (doy_civil doy)) 366 0 = true.
Proof. vm_compute. reflexivity. Qed.

Lemma doy_year_end :
  all_Z (fun doy => let '(a, m, _) := doy_civil doy in (a =? 1) && (m =? 2))%Z 2 364 = true.
Proof. vm_compute. reflexivity. Qed.

Lemma year_checks :
  all_Z (fun y => (yoe_of (year_start y) =? y) && (yoe_of (year_start (y + 1) - 1) =? y))%Z
        400 0 = true.
Proof. vm_compute. reflexivity. Qed.

Lemma yoe_of_step (a : Z) : (0 <= a)%Z -> (yoe_of a <= yoe_of (a + 1))%Z.
Proof.
  intros Ha. unfold yoe_of. apply Z.div_le_mono; [lia|].
  replace 146096%Z with (36524 * 4)%Z by lia. rewrite <- !Z.div_div by lia.
  assert ((a + 1) / 1460 <= a / 1460 + 1)%Z by (Z.div_mod_to_equations; lia).
  assert (a / 36524 <= (a + 1) / 36524 <= a / 36524 + 1)%Z by (Z.div_mod_to_equations; lia).
  set (u := (a / 36524)%Z) in *. set (v := ((a + 1) / 36524)%Z) in *.
  assert (v / 4 - u / 4 <= v - u)%Z by (Z.div_mod_to_equations; lia).
  lia.
Qed.

Lemma yoe_of_mono (a b : Z) : (0 <= a <= b)%Z -> (yoe_of a <= yoe_of b)%Z.
Proof.
  intros Hab.
  assert (H : forall n : nat, (yoe_of a <= yoe_of (a + Z.of_nat n))%Z).
  { induction n as [|n IH]; [rewrite Z.add_0_r; lia|].
    etransitivity; [exact IH|].
    replace (a + Z.of_nat (S n))%Z with (a + Z.of_nat n + 1)%Z by lia.
    apply yoe_of_step. lia. }
  specialize (H (Z.to_nat (b - a))). rewrite Z2Nat.id in H by lia.
  replace (a + (b - a))%Z with b in H by lia. exact H.
Qed.

Lemma year_start_step (y : Z) :
  (0 <= y)%Z -> (365 <= year_start (y + 1) - year_start y <= 366)%Z.
Proof. intros. unfold year_start. Z.div_mod_to_equations. lia. Qed.

Lemma year_start_nonneg (y : Z) : (0 <= y)%Z -> (0 <= year_start y)%Z.
Proof. intros. unfold year_start. Z.div_mod_to_equations. lia. Qed.

Lemma yoe_of_in (y doe : Z) :
  (0 <= y <= 399)%Z -> (year_start y <= doe < year_start (y + 1))%Z -> yoe_of doe = y.
Proof.
  intros Hy Hd.
  pose proof (all_Z_spec _ _ _ year_checks y ltac:(lia)) as Hc. cbv beta in Hc.
  apply andb_prop in Hc as [H1 H2]. apply Z.eqb_eq in H1, H2.
  pose proof (year_start_nonneg y ltac:(lia)).
  pose proof (yoe_of_mono (year_start y) doe ltac:(lia)).
  pose proof (yoe_of_mono doe (year_start (y + 1) - 1) ltac:(lia)).
  lia.
Qed.

Lemma year_cover (doe : Z) :
  (0 <= doe < 146096)%Z ->
  exists y, (0 <= y <= 399)%Z /\ (year_start y <= doe < year_start (y + 1))%Z.
Proof.
  intros Hd. rewrite <- (Z2Nat.id doe) in * by lia.
  induction (Z.to_nat doe) as [|n IH].
  - exists 0%Z.
    assert (year_start 0 = 0%Z) by reflexivity. assert (year_start (0 + 1) = 365%Z) by reflexivity.
    lia.
  - destruct IH as [y [Hy Hn]]; [lia|].
    destruct (Z.lt_ge_cases (Z.of_nat (S n)) (year_start (y + 1))) as [Hlt|Hge].
    + exists y. lia.
    + exists (y + 1)%Z.
      assert (Hy4 : year_start 400 = 146096%Z) by reflexivity.
      assert (y <> 399%Z) by (intros ->; change (399 + 1)%Z with 400%Z in *; lia).
      pose proof (year_start_step (y + 1) ltac:(lia)).
      replace (y + 1 + 1)%Z with (y + 2)%Z in * by lia.
      lia.
Qed.

Lemma era_key_step (doe : Z) :
  (0 <= doe < 146096)%Z -> civil_lt (era_key doe) (era_key (doe + 1)).
Proof.
  intros Hd.
  destruct (Z.eq_dec doe 146095%Z) as [->|Hne].
  { vm_compute. right. split; [reflexivity|]. right. split; reflexivity. }
  destruct (year_cover doe Hd) as [y [Hy Hin]].
  pose proof (year_start_step y ltac:(lia)) as Hlen.
  unfold era_key. rewrite (yoe_of_in y doe Hy Hin).
  destruct (Z.lt_ge_cases (doe + 1) (year_start (y + 1))) as [Hlt|Hge].
  - rewrite (yoe_of_in y (doe + 1) Hy ltac:(lia)).
    pose proof (all_Z_spec _ _ _ doy_steps (doe - year_start y) ltac:(lia)) as Hs.
    cbv beta in Hs. apply civil_ltb_spec in Hs.
    replace (doe - year_start y + 1)%Z with (doe + 1 - year_start y)%Z in Hs by lia.
    destruct (doy_civil (doe - year_start y)) as [[a1 m1] d1].
    destruct (doy_civil (doe + 1 - year_start y)) as [[a2 m2] d2].
    cbn in Hs |- *. lia.
  - assert (Hy' : (y + 1 <= 399)%Z).
    { assert (year_start 400 = 146096%Z) by reflexivity.
      destruct (Z.eq_dec y 399%Z) as [->|]; [change (399 + 1)%Z with 400%Z in *; lia|lia]. }
    assert (Hnext : (year_start (y + 1) <= doe + 1 < year_start (y + 1 + 1))%Z).
    { pose proof (year_start_step (y + 1) ltac:(lia)). lia. }
    rewrite (yoe_of_in (y + 1) (doe + 1) ltac:(lia) Hnext).
    replace (doe + 1 - year_start (y + 1))%Z with 0%Z by lia.
    pose proof (all_Z_spec _ _ _ doy_year_end (doe - year_start y) ltac:(lia)) as He.
    cbv beta in He.
    destruct (doy_civil (doe - year_start y)) as [[a1 m1] d1].
    apply andb_prop in He as [Ha Hm]. apply Z.eqb_eq in Ha, Hm. subst a1 m1.
    vm_compute (doy_civil 0). cbn. lia.
Qed.

Lemma era_key_ok (doe : Z) : (0 <= doe <= 146096)%Z -> civil_ok (era_key doe) = true.
Proof.
  intros Hd.
  destruct (Z.eq_dec doe 146096%Z) as [->|Hne]; [vm_compute; reflexivity|].
  destruct (year_cover doe ltac:(lia)) as [y [Hy Hin]].
  pose proof (year_start_step y ltac:(lia)).
  unfold era_key. rewrite (yoe_of_in y doe Hy Hin).
  pose proof (all_Z_spec _ _ _ doy_ranges (doe - year_start y) ltac:(lia)) as Hr.
  cbv beta in Hr. destruct (doy_civil (doe - year_start y)) as [[a m] d]. exact Hr.
Qed.

Lemma days_to_civil_key (days : Z) :
  days_to_civil days =
  let z := (days + 719468)%Z in
  let era := (z / 146097)%Z in
  let '(y, m, d) := era_key (z - era * 146097) in ((y + era * 400)%Z, m, d).
Proof.
  unfold days_to_civil, era_key, doy_civil, yoe_of, year_start. cbv zeta.
  destruct (_ <=? 2)%Z; do 2 f_equal; lia.
Qed.

Lemma days_to_civil_step (z : Z) : civil_lt (days_to_civil z) (days_to_civil (z + 1)).
Proof.
  rewrite !days_to_civil_key. cbv zeta.
  replace (z + 1 + 719468)%Z with (z + 719468 + 1)%Z by lia.
  set (zz := (z + 719468)%Z).
  assert (Hdoe : (0 <= zz - zz / 146097 * 146097 <= 146096)%Z) by (Z.div_mod_to_equations; lia).
  destruct (Z.eq_dec (zz - zz / 146097 * 146097)%Z 146096%Z) as [E|Hne].
  - assert (Hq : ((zz + 1) / 146097 = zz / 146097 + 1)%Z) by (Z.div_mod_to_equations; lia).
    rewrite Hq, E. replace (zz + 1 - (zz / 146097 + 1) * 146097)%Z with 0%Z by lia.
    vm_compute (era_key 146096). vm_compute (era_key 0). cbn. lia.
  - assert (Hq : ((zz + 1) / 146097 = zz / 146097)%Z) by (Z.div_mod_to_equations; lia).
    rewrite Hq. replace (zz + 1 - zz / 146097 * 146097)%Z
      with (zz - zz / 146097 * 146097 + 1)%Z by lia.
    pose proof (era_key_step (zz - zz / 146097 * 146097) ltac:(lia)) as Hs.
    destruct (era_key (zz - zz / 146097 * 146097)) as [[y1 m1] d1].
    destruct (era_key (zz - zz / 146097 * 146097 + 1)) as [[y2 m2] d2].
    apply civil_lt_shift. exact Hs.
Qed.

Lemma days_to_civil_mono (z1 z2 : Z) :
  (z1 < z2)%Z -> civil_lt (days_to_civil z1) (days_to_civil z2).
Proof.
  intros Hlt.
  assert (H : forall n : nat, civil_lt (days_to_civil z1) (days_to_civil (z1 + 1 + Z.of_nat n))).
  { induction n as [|n IH].
    - rewrite Z.add_0_r. apply days_to_civil_step.
    - eapply civil_lt_trans; [exact IH|].
      replace (z1 + 1 + Z.of_nat (S n))%Z with (z1 + 1 + Z.of_nat n + 1)%Z by lia.
      apply days_to_civil_step. }
  specialize (H (Z.to_nat (z2 - z1 - 1))). rewrite Z2Nat.id in H by lia.
  replace (z1 + 1 + (z2 - z1 - 1))%Z with z2 in H by lia. exact H.
Qed.

Lemma days_to_civil_ok (z : Z) : civil_ok (days_to_civil z) = true.
Proof.
  rewrite days_to_civil_key. cbv zeta.
  pose proof (era_key_ok ((z + 719468) - (z + 719468) / 146097 * 146097)
                ltac:(Z.div_mod_to_equations; lia)) as H.
  destruct (era_key _) as [[y m] d]. exact H.
Qed.

Lemma nat_of_ascii_inj (x y : ascii) : nat_of_ascii x = nat_of_ascii y -> x = y.
Proof.
  intros H. rewrite <- (ascii_nat_embedding x), <- (ascii_nat_embedding y), H. reflexivity.
Qed.

Lemma str_leb_refl (a : jstr) : str_leb a a = true.
Proof. induction a as [|x a IH]; [done|]. cbn [str_leb]. rewrite Nat.ltb_irrefl, Nat.eqb_refl. exact IH. Qed.

Lemma str_leb_trans (a b c : jstr) :
  str_leb a b = true -> str_leb b c = true -> str_leb a c = true.
Proof.
  revert b c; induction a as [|x a IH]; intros b c; [done|].
  destruct b as [|y b]; [done|]. destruct c as [|z c]; [done|]. cbn [str_leb].
  destruct (Nat.ltb_spec (nat_of_ascii x) (nat_of_ascii y)),
    (Nat.eqb_spec (nat_of_ascii x) (nat_of_ascii y)),
    (Nat.ltb_spec (nat_of_ascii y) (nat_of_ascii z)),
    (Nat.eqb_spec (nat_of_ascii y) (nat_of_ascii z)),
    (Nat.ltb_spec (nat_of_ascii x) (nat_of_ascii z)),
    (Nat.eqb_spec (nat_of_ascii x) (nat_of_ascii z)); cbn; intros; try done; try lia.
  eauto.
Qed.

Lemma str_leb_antisym (a b : jstr) :
  str_leb a b = true -> str_leb b a = true -> a = b.
Proof.
  revert b; induction a as [|x a IH]; intros b; destruct b as [|y b]; cbn [str_leb]; try done.
  destruct (Nat.ltb_spec (nat_of_ascii x) (nat_of_ascii y)),
    (Nat.eqb_spec (nat_of_ascii x) (nat_of_ascii y)),
    (Nat.ltb_spec (nat_of_ascii y) (nat_of_ascii x)),
    (Nat.eqb_spec (nat_of_ascii y) (nat_of_ascii x)); cbn; intros; try done; try lia.
  f_equal; [apply nat_of_ascii_inj; lia|auto].
Qed.

Lemma str_lt_trans (a b c : jstr) : str_lt a b -> str_lt b c -> str_lt a c.
Proof.
  unfold str_lt, str_le. intros [H1 H2] [H3 H4]. split; [eauto using str_leb_trans|].
  intros ->. apply H4, str_leb_antisym; done.
Qed.

Lemma str_leb_app_same (a r1 r2 : jstr) : str_leb (a ++ r1) (a ++ r2) = str_leb r1 r2.
Proof.
  induction a as [|x a IH]; [done|]. cbn [app str_leb].
  rewrite Nat.ltb_irrefl, Nat.eqb_refl. exact IH.
Qed.

Lemma str_leb_app_diff (a1 a2 r1 r2 : jstr) :
  length a1 = length a2 -> a1 <> a2 -> str_leb (a1 ++ r1) (a2 ++ r2) = str_leb a1 a2.
Proof.
  revert a2; induction a1 as [|x a1 IH]; intros a2 Hl Hne;
    destruct a2 as [|y a2]; cbn in Hl; try congruence.
  cbn [app str_leb]. destruct (decide (x = y)) as [->|Hxy].
  - rewrite Nat.ltb_irrefl, Nat.eqb_refl. apply IH; [lia|congruence].
  - destruct (Nat.eqb_spec (nat_of_ascii x) (nat_of_ascii y)) as [E|E].
    + exfalso. apply Hxy, nat_of_ascii_inj, E.
    + rewrite !andb_false_l. reflexivity.
Qed.

Lemma str_lt_app_l (a1 a2 r1 r2 : jstr) :
  length a1 = length a2 -> str_lt a1 a2 -> str_lt (a1 ++ r1) (a2 ++ r2).
Proof.
  intros Hl [Hle Hne]. split.
  - unfold str_le. rewrite str_leb_app_diff by done. exact Hle.
  - intros E. apply app_inj_1 in E as [E _]; [|exact Hl]. contradiction.
Qed.

Lemma str_lt_app_r (a r1 r2 : jstr) : str_lt r1 r2 -> str_lt (a ++ r1) (a ++ r2).
Proof.
  intros [Hle Hne]. split.
  - unfold str_le. rewrite str_leb_app_same. exact Hle.
  - intros E. apply app_inv_head in E. contradiction.
Qed.

Lemma str_lt_cons (c : ascii) (r1 r2 : jstr) : str_lt r1 r2 -> str_lt (c :: r1) (c :: r2).
Proof. apply (str_lt_app_r [c]). Qed.

Lemma pad_checks :
  all_Z (pad_step_ok 2) 99 0 = true /\ all_Z (pad_step_ok 3) 999 0 = true /\
  all_Z (pad_step_ok 4) 9999 0 = true /\
  all_Z (pad_len_ok 2) 100 0 = true /\ all_Z (pad_len_ok 3) 1000 0 = true /\
  all_Z (pad_len_ok 4) 10000 0 = true.
Proof. split_and!; vm_compute; reflexivity. Qed.

Lemma pad_facts (w : nat) (k : Z) :
  (w = 2 \/ w = 3 \/ w = 4)%nat -> (0 <= k < 10 ^ Z.of_nat w)%Z ->
  length (pad_num w k) = w /\
  ((k + 1 < 10 ^ Z.of_nat w)%Z -> str_lt (pad_num w k) (pad_num w (k + 1))).
Proof.
  intros Hw Hk. destruct pad_checks as (S2 & S3 & S4 & L2 & L3 & L4).
  assert (Hs : forall S L, all_Z (pad_step_ok w) S 0 = true -> all_Z (pad_len_ok w) L 0 = true ->
                Z.of_nat S = (10 ^ Z.of_nat w - 1)%Z -> Z.of_nat L = (10 ^ Z.of_nat w)%Z ->
                length (pad_num w k) = w /\
                ((k + 1 < 10 ^ Z.of_nat w)%Z -> str_lt (pad_num w k) (pad_num w (k + 1)))).
  { intros S L HS HL ES EL. split.
    - pose proof (all_Z_spec _ _ _ HL k ltac:(lia)) as H. unfold pad_len_ok in H.
      apply Nat.eqb_eq in H. exact H.
    - intros Hk1. pose proof (all_Z_spec _ _ _ HS k ltac:(lia)) as H. unfold pad_step_ok in H.
      apply andb_prop in H as [H1 H2]. apply negb_true_iff in H2.
      split; [exact H1|]. intros E. rewrite E, str_leb_refl in H2. discriminate. }
  destruct Hw as [-> | [-> | ->]].
  - exact (Hs _ _ S2 L2 eq_refl eq_refl).
  - exact (Hs _ _ S3 L3 eq_refl eq_refl).
  - exact (Hs _ _ S4 L4 eq_refl eq_refl).
Qed.

Lemma pad_mono (w : nat) (a b : Z) :
  (w = 2 \/ w = 3 \/ w = 4)%nat -> (0 <= a < b)%Z -> (b < 10 ^ Z.of_nat w)%Z ->
  str_lt (pad_num w a) (pad_num w b).
Proof.
  intros Hw Hab Hb.
  assert (H : forall n : nat, (a + 1 + Z.of_nat n < 10 ^ Z.of_nat w)%Z ->
                str_lt (pad_num w a) (pad_num w (a + 1 + Z.of_nat n))).
  { induction n as [|n IH]; intros Hn.
    - rewrite Z.add_0_r. apply (pad_facts w a Hw ltac:(lia)). lia.
    - eapply str_lt_trans; [apply IH; lia|].
      replace (a + 1 + Z.of_nat (S n))%Z with (a + 1 + Z.of_nat n + 1)%Z by lia.
      apply (pad_facts w (a + 1 + Z.of_nat n) Hw ltac:(lia)). lia. }
  specialize (H (Z.to_nat (b - a - 1))). rewrite Z2Nat.id in H by lia.
  replace (a + 1 + (b - a - 1))%Z with b in H by lia. apply H. lia.
Qed.

Lemma pad_block (w : nat) (x1 x2 : Z) (r1 r2 : jstr) :
  (w = 2 \/ w = 3 \/ w = 4)%nat ->
  (0 <= x1 < 10 ^ Z.of_nat w)%Z -> (0 <= x2 < 10 ^ Z.of_nat w)%Z ->
  ((x1 < x2)%Z \/ (x1 = x2 /\ str_lt r1 r2)) ->
  str_lt (pad_num w x1 ++ r1) (pad_num w x2 ++ r2).
Proof.
  intros Hw H1 H2 [Hlt|[-> Hr]].
  - apply str_lt_app_l; [|apply pad_mono; auto; lia].
    rewrite (proj1 (pad_facts w x1 Hw H1)), (proj1 (pad_facts w x2 Hw H2)). reflexivity.
  - apply str_lt_app_r, Hr.
Qed.

Lemma pad_num_no_colon (w : nat) (z : Z) :
  replace_colons (pad_num w z) = pad_num w z.
Proof.
  unfold replace_colons. rewrite <- (map_id (pad_num w z)) at 2. apply map_ext_in.
  intros c Hc. unfold pad_num in Hc. apply in_app_or in Hc as [Hc|Hc].
  - apply repeat_spec in Hc as ->. reflexivity.
  - pose proof (proj1 (List.Forall_forall _ _) (number_to_string_safe z) c Hc) as Hu.
    destruct (Ascii.eqb_spec c ":"%char) as [->|]; [discriminate|reflexivity].
Qed.

Lemma replace_colons_app (a b : jstr) :
  replace_colons (a ++ b) = replace_colons a ++ replace_colons b.
Proof. apply map_app. Qed.

Lemma replace_colons_cons (c : ascii) (s : jstr) :
  replace_colons (c :: s) = (if Ascii.eqb c ":"%char then "-"%char else c) :: replace_colons s.
Proof. reflexivity. Qed.

Lemma log_filename_iso (t : Z) (y m d : Z) :
  days_to_civil (t / 86400000) = (y, m, d) -> (0 <= y <= 9999)%Z ->
  log_filename t =
  lit "webhook-" ++ iso_name y m d ((t mod 86400000) / 3600000)
    (((t mod 86400000) / 60000) mod 60) (((t mod 86400000) / 1000) mod 60)
    ((t mod 86400000) mod 1000) ++ lit ".json".
Proof.
  intros E Hy. unfold log_filename, toISOString. rewrite E.
  replace ((0 <=? y) && (y <=? 9999))%Z with true
    by (symmetry; apply andb_true_iff; split; apply Z.leb_le; lia).
  f_equal. f_equal. unfold iso_name.
  repeat first [ rewrite replace_colons_app | rewrite replace_colons_cons
               | rewrite pad_num_no_colon ].
  reflexivity.
Qed.

Ltac pow_lia :=
  repeat match goal with
  | |- context [(10 ^ Z.of_nat ?w)%Z] =>
      let v := eval vm_compute in (10 ^ Z.of_nat w)%Z in change (10 ^ Z.of_nat w)%Z with v
  end; lia.

Lemma iso_name_lt (y1 m1 d1 h1 mi1 s1 ms1 y2 m2 d2 h2 mi2 s2 ms2 : Z) (r : jstr) :
  (0 <= y1 < 10000)%Z -> (0 <= y2 < 10000)%Z ->
  (0 <= m1 < 100)%Z -> (0 <= m2 < 100)%Z -> (0 <= d1 < 100)%Z -> (0 <= d2 < 100)%Z ->
  (0 <= h1 < 100)%Z -> (0 <= h2 < 100)%Z -> (0 <= mi1 < 100)%Z -> (0 <= mi2 < 100)%Z ->
  (0 <= s1 < 100)%Z -> (0 <= s2 < 100)%Z -> (0 <= ms1 < 1000)%Z -> (0 <= ms2 < 1000)%Z ->
  (y1 < y2 \/ y1 = y2 /\ (m1 < m2 \/ m1 = m2 /\ (d1 < d2 \/ d1 = d2 /\
   (h1 < h2 \/ h1 = h2 /\ (mi1 < mi2 \/ mi1 = mi2 /\ (s1 < s2 \/ s1 = s2 /\ ms1 < ms2))))))%Z ->
  str_lt (iso_name y1 m1 d1 h1 mi1 s1 ms1 ++ r) (iso_name y2 m2 d2 h2 mi2 s2 ms2 ++ r).
Proof.
  intros. unfold iso_name. repeat (rewrite <- app_assoc; cbn [app]).
  repeat match goal with
  | H : (?a < ?b \/ ?a = ?b /\ _)%Z |- _ =>
      apply pad_block; [lia|pow_lia|pow_lia|];
      destruct H as [H|[-> H]]; [left; exact H|right; split; [reflexivity|apply str_lt_cons]]
  end.
  apply pad_block; [lia|pow_lia|pow_lia|]. left. assumption.
Qed.

Lemma tod_ranges (M : Z) : (0 <= M < 86400000)%Z ->
  (0 <= M / 3600000 < 100)%Z /\ (0 <= (M / 60000) mod 60 < 100)%Z /\
  (0 <= (M / 1000) mod 60 < 100)%Z /\ (0 <= M mod 1000 < 1000)%Z.
Proof. intros. Z.div_mod_to_equations. lia. Qed.

Lemma tod_lt (m1 m2 : Z) : (0 <= m1 < m2)%Z -> (m2 < 86400000)%Z ->
  (m1 / 3600000 < m2 / 3600000 \/ (m1 / 3600000 = m2 / 3600000 /\
  ((m1 / 60000) mod 60 < (m2 / 60000) mod 60 \/ ((m1 / 60000) mod 60 = (m2 / 60000) mod 60 /\
  ((m1 / 1000) mod 60 < (m2 / 1000) mod 60 \/ ((m1 / 1000) mod 60 = (m2 / 1000) mod 60 /\
   m1 mod 1000 < m2 mod 1000))))))%Z.
Proof. intros. Z.div_mod_to_equations. lia. Qed.

Lemma civil_year_range (days : Z) :
  (-719528 <= days <= 2932896)%Z -> (0 <= (days_to_civil days).1.1 <= 9999)%Z.
Proof.
  intros Hd.
  assert (Lo : days_to_civil (-719528) = (0, 1, 1)%Z) by (vm_compute; reflexivity).
  assert (Hi : days_to_civil 2932896 = (9999, 12, 31)%Z) by (vm_compute; reflexivity).
  destruct (days_to_civil days) as [[y m] d] eqn:E. cbn. split.
  - destruct (Z.eq_dec days (-719528)%Z) as [->|Hne]; [rewrite Lo in E; injection E; lia|].
    pose proof (days_to_civil_mono (-719528) days ltac:(lia)) as H.
    rewrite Lo, E in H. cbn in H. lia.
  - destruct (Z.eq_dec days 2932896%Z) as [->|Hne]; [rewrite Hi in E; injection E; lia|].
    pose proof (days_to_civil_mono days 2932896 ltac:(lia)) as H.
    rewrite Hi, E in H. cbn in H. lia.
Qed.

Lemma civil_ok_ranges (y m d : Z) : civil_ok (y, m, d) = true -> (1 <= m <= 12 /\ 1 <= d <= 31)%Z.
Proof. cbn. rewrite !andb_true_iff, !Z.leb_le. lia. Qed.

(** X15: for two clock readings t1 < t2 whose dates fall in years 0000 to
    9999, the log file name of t1 sorts strictly before the one of t2 in
    the code-unit order that [sort] uses. *)
Theorem log_filename_order (t1 t2 : Z) :
  (-62167219200000 <= t1 < t2)%Z -> (t2 <= 253402300799999)%Z ->
  str_lt (log_filename t1) (log_filename t2).
Proof.
  intros H1 H2.
  assert (HD : (t1 / 86400000 <= t2 / 86400000)%Z) by (apply Z.div_le_mono; lia).
  assert (HD1 : (-719528 <= t1 / 86400000 <= 2932896)%Z).
  { split; [change (-719528)%Z with (-62167219200000 / 86400000)%Z|
            change 2932896%Z with (253402300799999 / 86400000)%Z]; apply Z.div_le_mono; lia. }
  assert (HD2 : (-719528 <= t2 / 86400000 <= 2932896)%Z).
  { split; [change (-719528)%Z with (-62167219200000 / 86400000)%Z|
            change 2932896%Z with (253402300799999 / 86400000)%Z]; apply Z.div_le_mono; lia. }
  pose proof (civil_year_range _ HD1) as Y1. pose proof (civil_year_range _ HD2) as Y2.
  pose proof (days_to_civil_ok (t1 / 86400000)) as O1.
  pose proof (days_to_civil_ok (t2 / 86400000)) as O2.
  assert (Hmono : (t1 / 86400000 < t2 / 86400000)%Z ->
    civil_lt (days_to_civil (t1 / 86400000)) (days_to_civil (t2 / 86400000)))
    by apply days_to_civil_mono.
  assert (HM1 : (0 <= t1 mod 86400000 < 86400000)%Z) by (apply Z.mod_pos_bound; lia).
  assert (HM2 : (0 <= t2 mod 86400000 < 86400000)%Z) by (apply Z.mod_pos_bound; lia).
  assert (HM : (t1 / 86400000 = t2 / 86400000)%Z -> (t1 mod 86400000 < t2 mod 86400000)%Z).
  { pose proof (Z.div_mod t1 86400000 ltac:(lia)). pose proof (Z.div_mod t2 86400000 ltac:(lia)).
    lia. }
  pose proof (tod_ranges _ HM1) as R1. pose proof (tod_ranges _ HM2) as R2.
  pose proof (tod_lt (t1 mod 86400000) (t2 mod 86400000)) as T.
  destruct (days_to_civil (t1 / 86400000)) as [[y1 m1] d1] eqn:E1.
  destruct (days_to_civil (t2 / 86400000)) as [[y2 m2] d2] eqn:E2.
  cbn in Y1, Y2. apply civil_ok_ranges in O1, O2.
  rewrite (log_filename_iso t1 y1 m1 d1 E1 Y1), (log_filename_iso t2 y2 m2 d2 E2 Y2).
  apply str_lt_app_r. apply iso_name_lt; try lia.
  destruct (Z.lt_ge_cases (t1 / 86400000) (t2 / 86400000)) as [Hlt|Hge].
  - specialize (Hmono Hlt). cbn in Hmono. lia.
  - assert (Heq : (t1 / 86400000 = t2 / 86400000)%Z) by lia.
    rewrite Heq, E2 in E1. injection E1 as -> -> ->.
    specialize (T ltac:(specialize (HM Heq); lia) ltac:(lia)). lia.
Qed.

Lemma log_filename_order_witness :
  (-62167219200000 <= 946684799999 < 946684800000)%Z /\ (946684800000 <= 253402300799999)%Z /\
  str_lt (log_filename 946684799999) (log_filename 946684800000).
Proof. split; [lia|split; [lia|]]. apply log_filename_order; lia. Defined.
